(** * Electron simulation of the Hall-effect visualisation

    Shallow embedding of
    [src/widgets/hall-effect-visualization/lib/electron-simulation.ts]
    (class [ElectronSimulation]).

    Modelling choices:
    - JavaScript numbers that the code computes with are rationals [Q]
      (floating-point rounding is not modelled).  The two inputs the code
      explicitly sanitises, [currentVal] and [magneticFieldVal], are
      [JSNum], which also has [NaN].
    - [Math.random()] reads the stream [random] at the cursor [rand_cursor]
      of the state and advances the cursor; [Math.sin] is the function
      [sin].  Both are section variables, so every definition is a function
      of them.
    - The only caller ([ui/HallEffect3D.tsx]) passes to [updateElectrons]
      the array returned by [initializeElectrons], which is [this.electrons]
      itself; the electrons are mutated in place, so the update is modelled
      on the simulation's own array ([electrons]).
    - An [InstancedMesh] is its instance buffer: one (position, scale)
      pair per instance, as written by [dummy.updateMatrix] and
      [setMatrixAt]; a write past the end of the buffer is dropped, as a
      write past the end of a typed array is. *)

From Stdlib Require Import QArith Qabs Qround Lqa List Bool Lia PeanoNat.
Import ListNotations.
Open Scope Q_scope.

(** ** Data model *)

(** A JavaScript number as far as the sanitising code distinguishes it. *)
Inductive JSNum : Type :=
| JNaN
| JNum (q : Q).

(** [THREE.Vector3]. *)
Record Vector3 : Type := mkVector3 { x : Q; y : Q; z : Q }.

(** [interface Electron]. *)
Record Electron : Type := mkElectron {
  position : Vector3;
  velocity : Vector3;
  id : nat;
  initialPosition : Vector3;
  trailPoints : list Vector3
}.

(** [THREE.InstancedMesh]: instance buffer of (position, uniform scale). *)
Record InstancedMesh : Type := mkInstancedMesh {
  instanceMatrix : list (Vector3 * Q);
  needsUpdate : bool
}.

(** [THREE.SphereGeometry(radius, widthSegments, heightSegments)]. *)
Record SphereGeometry : Type := mkSphereGeometry {
  radius : Q; widthSegments : nat; heightSegments : nat
}.

(** A [THREE.Color] as the code sets it: from a hex literal (as given to
    a material constructor) or by [setRGB]. *)
Inductive Color : Type :=
| ColorHex (h : Z)
| ColorRGB (r g b : Q).

(** The mutable part of [THREE.MeshStandardMaterial] the code writes. *)
Record MeshStandardMaterial : Type := mkMeshStandardMaterial {
  emissive : Color;
  emissiveIntensity : Q
}.

(** [THREE.MeshBasicMaterial] of the glow (its opacity). *)
Record MeshBasicMaterial : Type := mkMeshBasicMaterial { opacity : Q }.

(** The objects the simulation adds to the shared scene. *)
Inductive SceneObj : Type := ElectronsMeshObj | ElectronsGlowObj.

Definition SceneObj_eq_dec (a b : SceneObj) : {a = b} + {a <> b}.
Proof. decide equality. Defined.

(** The fields of [class ElectronSimulation] ([scene] restricted to the
    objects it adds; [dummy] is a scratch object and is not state), plus
    the cursor of the [Math.random] stream. *)
Record Sim : Type := mkSim {
  electrons : list Electron;
  scene : list SceneObj;
  lastCurrentVal : Q;
  movementEnabled : bool;
  electronsMesh : option InstancedMesh;
  electronsGlow : option InstancedMesh;
  electronsGeometry : option SphereGeometry;
  electronsMaterial : option MeshStandardMaterial;
  glowGeometry : option SphereGeometry;
  glowMaterial : option MeshBasicMaterial;
  rand_cursor : nat
}.

(** ** JavaScript and three.js primitives *)

Definition Qltb (a b : Q) : bool := negb (Qle_bool b a).

(** [Math.max(a, b)] and [Math.min(a, b)] on non-NaN numbers. *)
Definition Math_max (a b : Q) : Q := if Qltb a b then b else a.
Definition Math_min (a b : Q) : Q := if Qltb b a then b else a.

(** [v || 0]: [NaN] and [0] are falsy. *)
Definition or_zero (v : JSNum) : Q :=
  match v with
  | JNaN => 0
  | JNum q => if Qeq_bool q 0 then 0 else q
  end.

(** [THREE.MathUtils.clamp(value, min, max)]
    = [Math.max(min, Math.min(max, value))]. *)
Definition clamp (value mn mx : Q) : Q := Math_max mn (Math_min mx value).

(** [Vector3.crossVectors(a, b)]. *)
Definition crossVectors (a b : Vector3) : Vector3 :=
  mkVector3 (y a * z b - z a * y b)
            (z a * x b - x a * z b)
            (x a * y b - y a * x b).

(** [Vector3.multiplyScalar(s)]. *)
Definition multiplyScalar (v : Vector3) (s : Q) : Vector3 :=
  mkVector3 (x v * s) (y v * s) (z v * s).

Definition set_x (v : Vector3) (q : Q) : Vector3 := mkVector3 q (y v) (z v).
Definition set_y (v : Vector3) (q : Q) : Vector3 := mkVector3 (x v) q (z v).
Definition set_z (v : Vector3) (q : Q) : Vector3 := mkVector3 (x v) (y v) q.

Definition with_position (e : Electron) (p : Vector3) : Electron :=
  mkElectron p (velocity e) (id e) (initialPosition e) (trailPoints e).
Definition with_velocity (e : Electron) (v : Vector3) : Electron :=
  mkElectron (position e) v (id e) (initialPosition e) (trailPoints e).

(** Writing index [i] of a typed array; out of range the write is lost. *)
Fixpoint write_at {A} (l : list A) (i : nat) (a : A) : list A :=
  match l, i with
  | [], _ => []
  | _ :: t, O => a :: t
  | h :: t, S i' => h :: write_at t i' a
  end.

(** [mesh.setMatrixAt(index, dummy.matrix)] after [dummy.position.copy(p)],
    [dummy.scale.set(s, s, s)], [dummy.updateMatrix()], guarded by
    [if (mesh)]. *)
Definition setMatrixAt (m : option InstancedMesh) (i : nat) (p : Vector3) (s : Q)
  : option InstancedMesh :=
  match m with
  | Some m => Some (mkInstancedMesh (write_at (instanceMatrix m) i (p, s))
                                    (needsUpdate m))
  | None => None
  end.

(** [if (mesh) mesh.instanceMatrix.needsUpdate = true]. *)
Definition markNeedsUpdate (m : option InstancedMesh) : option InstancedMesh :=
  match m with
  | Some m => Some (mkInstancedMesh (instanceMatrix m) true)
  | None => None
  end.

(** [new THREE.InstancedMesh(geometry, material, count)]: [count] identity
    matrices. *)
Definition newInstancedMesh (count : nat) : InstancedMesh :=
  mkInstancedMesh (repeat (mkVector3 0 0 0, 1) count) false.

(** ** Field updates of the simulation object *)

Definition set_electrons (s : Sim) (es : list Electron) : Sim :=
  mkSim es (scene s) (lastCurrentVal s) (movementEnabled s) (electronsMesh s)
        (electronsGlow s) (electronsGeometry s) (electronsMaterial s)
        (glowGeometry s) (glowMaterial s) (rand_cursor s).

Definition set_lastCurrentVal (s : Sim) (v : Q) : Sim :=
  mkSim (electrons s) (scene s) v (movementEnabled s) (electronsMesh s)
        (electronsGlow s) (electronsGeometry s) (electronsMaterial s)
        (glowGeometry s) (glowMaterial s) (rand_cursor s).

Definition set_movementEnabled (s : Sim) (b : bool) : Sim :=
  mkSim (electrons s) (scene s) (lastCurrentVal s) b (electronsMesh s)
        (electronsGlow s) (electronsGeometry s) (electronsMaterial s)
        (glowGeometry s) (glowMaterial s) (rand_cursor s).

Definition set_meshes (s : Sim) (m g : option InstancedMesh) : Sim :=
  mkSim (electrons s) (scene s) (lastCurrentVal s) (movementEnabled s) m g
        (electronsGeometry s) (electronsMaterial s)
        (glowGeometry s) (glowMaterial s) (rand_cursor s).

Definition set_electronsMaterial (s : Sim) (m : option MeshStandardMaterial) : Sim :=
  mkSim (electrons s) (scene s) (lastCurrentVal s) (movementEnabled s)
        (electronsMesh s) (electronsGlow s) (electronsGeometry s) m
        (glowGeometry s) (glowMaterial s) (rand_cursor s).

Definition set_rand_cursor (s : Sim) (n : nat) : Sim :=
  mkSim (electrons s) (scene s) (lastCurrentVal s) (movementEnabled s)
        (electronsMesh s) (electronsGlow s) (electronsGeometry s)
        (electronsMaterial s) (glowGeometry s) (glowMaterial s) n.

(** Both instanced meshes get the same matrix at [index]. *)
Definition setBothMatrices (s : Sim) (index : nat) (p : Vector3) (sc : Q) : Sim :=
  set_meshes s (setMatrixAt (electronsMesh s) index p sc)
               (setMatrixAt (electronsGlow s) index p sc).

Definition markBothNeedsUpdate (s : Sim) : Sim :=
  set_meshes s (markNeedsUpdate (electronsMesh s)) (markNeedsUpdate (electronsGlow s)).

(** [new ElectronSimulation(scene)]. *)
Definition newElectronSimulation (cursor : nat) : Sim :=
  mkSim [] [] 0 true None None None None None None cursor.

(** [dispose()]: every release is guarded by [if (this.field)]. *)
Definition dispose (s : Sim) : Sim :=
  let scene1 := match electronsMesh s with
                | Some _ => remove SceneObj_eq_dec ElectronsMeshObj (scene s)
                | None => scene s
                end in
  let scene2 := match electronsGlow s with
                | Some _ => remove SceneObj_eq_dec ElectronsGlowObj scene1
                | None => scene1
                end in
  mkSim [] scene2 (lastCurrentVal s) (movementEnabled s)
        None None None None None None (rand_cursor s).

Section Simulation.

(** [Math.random] and [Math.sin]. *)
Variable random : nat -> Q.
Variable sin : Q -> Q.

Definition Math_random (s : Sim) : Q * Sim :=
  (random (rand_cursor s), set_rand_cursor s (S (rand_cursor s))).

(** The body of [Array.from({ length: count }, (_, i) => ...)] in
    [initializeElectrons], for [i] from [i] to [i + n - 1]. *)
Fixpoint init_loop (i n : nat) (s : Sim) : list Electron * Sim :=
  match n with
  | O => ([], s)
  | S n' =>
      let (r1, s1) := Math_random s in
      let (r2, s2) := Math_random s1 in
      let (r3, s3) := Math_random s2 in
      let position := mkVector3 (r1 * 4 - 2) (r2 * 0.2 - 0.1) (r3 * 0.4 - 0.2) in
      let velocity := mkVector3 (-0.5) 0 0 in
      let s4 := setBothMatrices s3 i position 1 in
      let (es, s5) := init_loop (S i) n' s4 in
      (mkElectron position velocity i position [] :: es, s5)
  end.

(** [initializeElectrons(count)]: returns the new array, which is also
    stored in [this.electrons]. *)
Definition initializeElectrons (count : nat) (s : Sim) : list Electron * Sim :=
  let s0 := dispose s in
  let s1 := mkSim (electrons s0) (scene s0 ++ [ElectronsMeshObj; ElectronsGlowObj])
                  (lastCurrentVal s0) (movementEnabled s0)
                  (Some (newInstancedMesh count)) (Some (newInstancedMesh count))
                  (Some (mkSphereGeometry 0.05 16 16))
                  (Some (mkMeshStandardMaterial (ColorHex 1982639) 0.7))
                  (Some (mkSphereGeometry 0.08 12 12))
                  (Some (mkMeshBasicMaterial 0.15))
                  (rand_cursor s0) in
  let (es, s2) := init_loop 0 count s1 in
  let s3 := markBothNeedsUpdate s2 in
  (es, set_movementEnabled (set_electrons s3 es) true).

(** [electrons.forEach((electron, index) => body)] where the body may
    mutate the electron in place and the simulation object. *)
Fixpoint forEach (body : nat -> Electron -> Sim -> Electron * Sim)
    (index : nat) (es : list Electron) (s : Sim) : list Electron * Sim :=
  match es with
  | [] => ([], s)
  | e :: es' =>
      let (e', s1) := body index e s in
      let (es'', s2) := forEach body (S index) es' s1 in
      (e' :: es'', s2)
  end.

(** The [forEach] body of [resetElectronPositions]. *)
Definition reset_body (index : nat) (electron : Electron) (s : Sim) : Electron * Sim :=
  let (r1, s1) := Math_random s in
  let (r2, s2) := Math_random s1 in
  let (r3, s3) := Math_random s2 in
  let p := mkVector3 (r1 * 4 - 2) (r2 * 0.2 - 0.1) (r3 * 0.4 - 0.2) in
  (with_position electron p, setBothMatrices s3 index p 1).

(** [resetElectronPositions()]. *)
Definition resetElectronPositions (s : Sim) : Sim :=
  let (es, s1) := forEach reset_body 0 (electrons s) s in
  set_movementEnabled (markBothNeedsUpdate (set_electrons s1 es)) false.

(** [resumeElectronMovement()]. *)
Definition resumeElectronMovement (s : Sim) : Sim := set_movementEnabled s true.

(** The [forEach] body of the near-zero-current branch of
    [updateElectrons]: the electron is only read. *)
Definition frozen_body (time : Q) (index : nat) (electron : Electron) (s : Sim)
  : Electron * Sim :=
  let pulse := 1 + sin (time * 2 + inject_Z (Z.of_nat (id electron)) * 0.2) * 0.05 in
  let s1 := setBothMatrices s index (position electron) pulse in
  let s2 := match electronsMaterial s1 with
            | Some _ => set_electronsMaterial s1
                          (Some (mkMeshStandardMaterial (ColorRGB 0.1 0.1 0.5) 0.2))
            | None => s1
            end in
  (electron, s2).

Definition FORCE_SCALE : Q := 0.2.

(** The [forEach] body of the flowing branch of [updateElectrons];
    [current], [magneticField] and [dt] are the sanitised inputs. *)
Definition flow_body (current magneticField dt time : Q)
    (showEdgeAccumulation : bool) (index : nat) (electron : Electron) (s : Sim)
    : Electron * Sim :=
  let baseVelocity := 0.5 * (current / 5) in
  let vel := set_x (velocity electron) (- baseVelocity) in
  let B := multiplyScalar (mkVector3 0 (-1) 0) (magneticField / 50) in
  let force := multiplyScalar (crossVectors vel B) (- FORCE_SCALE) in
  let p1 := set_x (position electron) (x (position electron) + x vel * dt * 1.5) in
  let p2 := if Qltb 0.1 magneticField
            then set_z p1 (z p1 + z force * dt * 1.2) else p1 in
  let (r, s1) := Math_random s in
  let p3 := set_y p2 (y p2 + (r - 0.5) * 0.0001) in
  let (p4, s2) :=
    if Qltb (x p3) (-2.5) then
      let (ry, s1') := Math_random s1 in
      let p := set_y (set_x p3 2.5) (ry * 0.2 - 0.1) in
      if showEdgeAccumulation then
        let (rz, s2') := Math_random s1' in (set_z p (rz * 0.2 - 0.4), s2')
      else
        let (rz, s2') := Math_random s1' in (set_z p (rz * 0.4 - 0.2), s2')
    else (p3, s1) in
  let p5 := set_y p4 (clamp (y p4) (-0.2) 0.2) in
  let p6 :=
    if showEdgeAccumulation then
      let zLimit := 0.4 + (magneticField / 100) * 0.1 in
      set_z p5 (clamp (z p5) (- zLimit) zLimit)
    else set_z p5 (clamp (z p5) (-0.4) 0.4) in
  let pulse := 1 + sin (time * 3 + inject_Z (Z.of_nat (id electron)) * 0.5) * 0.1 in
  (mkElectron p6 vel (id electron) (initialPosition electron) (trailPoints electron),
   setBothMatrices s2 index p6 pulse).

(** [updateElectrons(this.electrons, deltaTime, currentVal,
    magneticFieldVal, time)]. *)
Definition updateElectrons (deltaTime : Q) (currentVal magneticFieldVal : JSNum)
    (time : Q) (s : Sim) : Sim :=
  let current := Math_max 0 (or_zero currentVal) in
  let magneticField := Math_max 0 (or_zero magneticFieldVal) in
  let dt := Math_min deltaTime 0.033 in
  let currentTransitionToZero :=
    Qltb 0.1 (lastCurrentVal s) && Qle_bool current 0.1 in
  let currentTransitionFromZero :=
    Qle_bool (lastCurrentVal s) 0.1 && Qltb 0.1 current in
  let s1 := set_lastCurrentVal s current in
  let s2 := if currentTransitionToZero then resetElectronPositions s1
            else if currentTransitionFromZero then resumeElectronMovement s1
            else s1 in
  if Qle_bool current 0.1 then
    markBothNeedsUpdate (snd (forEach (frozen_body time) 0 (electrons s2) s2))
  else
    let s3 := if negb (movementEnabled s2) && Qltb 0.1 current
              then resumeElectronMovement s2 else s2 in
    if negb (movementEnabled s3) then s3
    else
      let showEdgeAccumulation := Qltb 10 magneticField && Qltb 1 current in
      let s4 := match electronsMaterial s3 with
                | Some _ =>
                    let velocityFactor := 0.5 * (current / 5) in
                    set_electronsMaterial s3
                      (Some (mkMeshStandardMaterial (ColorRGB 0.1 0.3 0.8)
                                                    (0.3 + velocityFactor * 0.5)))
                | None => s3
                end in
      let (es, s5) := forEach (flow_body current magneticField dt time
                                         showEdgeAccumulation) 0 (electrons s4) s4 in
      markBothNeedsUpdate (set_electrons s5 es).

(** One animation frame of the caller: the arguments of one
    [updateElectrons] call. *)
Record Frame : Type := mkFrame {
  frame_deltaTime : Q;
  frame_current : JSNum;
  frame_magneticField : JSNum;
  frame_time : Q
}.

(** The animation loop: one [updateElectrons] call per frame, in order. *)
Fixpoint runFrames (fs : list Frame) (s : Sim) : Sim :=
  match fs with
  | [] => s
  | f :: fs' =>
      runFrames fs' (updateElectrons (frame_deltaTime f) (frame_current f)
                                     (frame_magneticField f) (frame_time f) s)
  end.

End Simulation.

(** The sanitised current and field: [Math.max(0, v || 0)]. *)
Definition sanitize (v : JSNum) : Q := Math_max 0 (or_zero v).

(** ** Lemmas on the primitives *)

Lemma Qltb_true (a b : Q) : Qltb a b = true <-> a < b.
Proof.
  unfold Qltb. rewrite negb_true_iff. split; intro H.
  - apply Qnot_le_lt. intro H'. apply Qle_bool_iff in H'. congruence.
  - destruct (Qle_bool b a) eqn:E; [|reflexivity].
    apply Qle_bool_iff in E. exfalso. apply (Qlt_not_le a b); assumption.
Qed.

Lemma Qltb_false (a b : Q) : Qltb a b = false <-> b <= a.
Proof.
  unfold Qltb. rewrite negb_false_iff. apply Qle_bool_iff.
Qed.

Lemma Qle_bool_false (a b : Q) : Qle_bool a b = false <-> b < a.
Proof.
  split; intro H.
  - apply Qnot_le_lt. intro H'. apply Qle_bool_iff in H'. congruence.
  - destruct (Qle_bool a b) eqn:E; [|reflexivity].
    apply Qle_bool_iff in E. exfalso. apply (Qlt_not_le b a); assumption.
Qed.

Ltac qbool :=
  repeat match goal with
  | H : Qltb _ _ = true |- _ => apply Qltb_true in H
  | H : Qltb _ _ = false |- _ => apply Qltb_false in H
  | H : Qle_bool _ _ = true |- _ => apply Qle_bool_iff in H
  | H : Qle_bool _ _ = false |- _ => apply Qle_bool_false in H
  end.

Lemma Math_max_ge_l (a b : Q) : a <= Math_max a b.
Proof.
  unfold Math_max. destruct (Qltb a b) eqn:E; qbool; lra.
Qed.

Lemma Math_min_le_l (a b : Q) : Math_min a b <= a.
Proof.
  unfold Math_min. destruct (Qltb b a) eqn:E; qbool; lra.
Qed.

Lemma Math_min_ge (a b c : Q) : c <= a -> c <= b -> c <= Math_min a b.
Proof.
  unfold Math_min. destruct (Qltb b a); auto.
Qed.

Lemma sanitize_nonneg (v : JSNum) : 0 <= sanitize v.
Proof. apply Math_max_ge_l. Qed.

Lemma clamp_bounds (v mn mx : Q) : mn <= mx -> mn <= clamp v mn mx <= mx.
Proof.
  unfold clamp, Math_max, Math_min. intro H.
  destruct (Qltb v mx) eqn:E1; destruct (Qltb mn _) eqn:E2; qbool; lra.
Qed.

Lemma clamp_id (v mn mx : Q) : mn <= v <= mx -> clamp v mn mx == v.
Proof.
  unfold clamp, Math_max, Math_min. intro H.
  destruct (Qltb v mx) eqn:E1; destruct (Qltb mn _) eqn:E2; qbool; lra.
Qed.

(** ** Lemmas on [forEach] *)

Lemma forEach_Forall2 (R : Electron -> Electron -> Prop)
    (body : nat -> Electron -> Sim -> Electron * Sim) :
  (forall i e s, R e (fst (body i e s))) ->
  forall es i s, Forall2 R es (fst (forEach body i es s)).
Proof.
  intros Hb es. induction es as [|e es IH]; intros i s; simpl.
  - constructor.
  - specialize (Hb i e s).
    destruct (body i e s) as [e' s1] eqn:E1.
    specialize (IH (S i) s1).
    destruct (forEach body (S i) es s1) as [es'' s2] eqn:E2.
    simpl in *. constructor; assumption.
Qed.

(** A field of the simulation object that no body writes is left alone. *)
Lemma forEach_field {A} (f : Sim -> A)
    (body : nat -> Electron -> Sim -> Electron * Sim) :
  (forall i e s, f (snd (body i e s)) = f s) ->
  forall es i s, f (snd (forEach body i es s)) = f s.
Proof.
  intros Hb es. induction es as [|e es IH]; intros i s; simpl; [reflexivity|].
  specialize (Hb i e s).
  destruct (body i e s) as [e' s1] eqn:E1.
  specialize (IH (S i) s1).
  destruct (forEach body (S i) es s1) as [es'' s2] eqn:E2.
  simpl in *. congruence.
Qed.

Lemma Forall2_refl {A} (R : A -> A -> Prop) (l : list A) :
  (forall a, R a a) -> Forall2 R l l.
Proof. intro H. induction l; constructor; auto. Qed.

Lemma frozen_body_electrons (sin : Q -> Q) (time : Q) :
  forall i e s, electrons (snd (frozen_body sin time i e s)) = electrons s.
Proof.
  intros i e s. unfold frozen_body. simpl.
  destruct (electronsMaterial _); reflexivity.
Qed.

(** ** The three ways an update call treats the particles *)


(** A call either redistributes the particles (freeze edge), leaves them
    alone (near-zero current, no edge) or integrates them (flowing). *)
Lemma updateElectrons_cases (random : nat -> Q) (sin : Q -> Q) (dt : Q)
    (cv mv : JSNum) (t : Q) (s : Sim) :
  let c := sanitize cv in
  let m := sanitize mv in
  (Qle_bool c 0.1 = true /\ Qltb 0.1 (lastCurrentVal s) = true /\
   electrons (updateElectrons random sin dt cv mv t s)
   = fst (forEach (reset_body random) 0 (electrons s) (set_lastCurrentVal s c)))
  \/ (Qle_bool c 0.1 = true /\ Qltb 0.1 (lastCurrentVal s) = false /\
      electrons (updateElectrons random sin dt cv mv t s) = electrons s)
  \/ (Qle_bool c 0.1 = false /\ exists s',
      electrons (updateElectrons random sin dt cv mv t s)
      = fst (forEach (flow_body random sin c m (Math_min dt 0.033) t
                                (Qltb 10 m && Qltb 1 c)) 0 (electrons s) s')).
Proof.
  intros c m. unfold updateElectrons. fold (sanitize cv) (sanitize mv). fold c m.
  destruct (Qle_bool c 0.1) eqn:Hc;
    destruct (Qltb 0.1 (lastCurrentVal s)) eqn:Hl; simpl.
  - left. split; [reflexivity|split; [reflexivity|]].
    unfold resetElectronPositions.
    destruct (forEach (reset_body random) 0 _ _) as [es s1] eqn:E. simpl.
    rewrite (forEach_field electrons _ (frozen_body_electrons sin t)).
    simpl. reflexivity.
  - right; left. split; [reflexivity|split; [reflexivity|]].
    rewrite (forEach_field electrons _ (frozen_body_electrons sin t)).
    destruct (_ && _); reflexivity.
  - right; right. split; [reflexivity|].
    assert (Hc' : Qltb 0.1 c = true) by (apply Qltb_true; qbool; assumption).
    rewrite Hc'.
    destruct (Qle_bool (lastCurrentVal s) 0.1); simpl;
      destruct (movementEnabled s) eqn:Hm; simpl; rewrite ?Hm; simpl;
      destruct (electronsMaterial s); simpl.
    all: match goal with
      | |- context [forEach ?b 0 ?es ?s0] =>
          exists s0; destruct (forEach b 0 es s0); reflexivity
      end.
  - right; right. split; [reflexivity|].
    assert (Hc' : Qltb 0.1 c = true) by (apply Qltb_true; qbool; assumption).
    rewrite Hc'.
    destruct (Qle_bool (lastCurrentVal s) 0.1); simpl;
      destruct (movementEnabled s) eqn:Hm; simpl; rewrite ?Hm; simpl;
      destruct (electronsMaterial s); simpl;
      match goal with
      | |- context [forEach ?b 0 ?es ?s0] =>
          exists s0; destruct (forEach b 0 es s0); reflexivity
      end.
Qed.

(** Unfolds a [flow_body] call and splits on all its branches. *)
Ltac flow_unfold :=
  unfold flow_body, Math_random; cbn -[Qltb Qle_bool clamp Qmult Qplus Qminus Qopp Qdiv];
  repeat match goal with
         | |- context [if ?b then _ else _] => destruct b eqn:?
         end; cbn -[Qltb Qle_bool clamp Qmult Qplus Qminus Qopp Qdiv] in *.

(** The frozen body only writes the instance buffers and the material. *)
Lemma frozen_body_state (sin : Q -> Q) (time : Q) i e s :
  exists m g mat,
    snd (frozen_body sin time i e s) = set_electronsMaterial (set_meshes s m g) mat.
Proof.
  set (s' := snd (frozen_body sin time i e s)).
  exists (electronsMesh s'), (electronsGlow s'), (electronsMaterial s').
  subst s'.
  destruct s as [es sc lc me em eg egeo [mat|] gg gm rc];
    unfold frozen_body; simpl; reflexivity.
Qed.

Lemma frozen_forEach_fields (sin : Q -> Q) (time : Q) es i s :
  let s' := snd (forEach (frozen_body sin time) i es s) in
  electrons s' = electrons s /\ lastCurrentVal s' = lastCurrentVal s /\
  movementEnabled s' = movementEnabled s /\ rand_cursor s' = rand_cursor s.
Proof.
  simpl.
  repeat split; apply forEach_field; intros i' e s0;
    destruct (frozen_body_state sin time i' e s0) as (m & g & mat & ->); reflexivity.
Qed.

Lemma sanitize_neg (q : Q) : q < 0 -> sanitize (JNum q) = 0.
Proof.
  intro H. unfold sanitize, or_zero, Math_max.
  destruct (Qeq_bool q 0) eqn:E; [reflexivity|].
  destruct (Qltb 0 q) eqn:E2; [|reflexivity]. qbool. lra.
Qed.

Lemma sanitize_NaN : sanitize JNaN = 0.
Proof. reflexivity. Qed.

Lemma sanitize_zero : sanitize (JNum 0) = 0.
Proof. reflexivity. Qed.

(** The update reads [currentVal] only through its sanitised value. *)
Lemma updateElectrons_sanitized_current random sin dt cv cv' mv t s :
  sanitize cv = sanitize cv' ->
  updateElectrons random sin dt cv mv t s = updateElectrons random sin dt cv' mv t s.
Proof.
  intro H. unfold updateElectrons. fold (sanitize cv) (sanitize cv'). rewrite H.
  reflexivity.
Qed.

Lemma frozen_forEach_state (sin : Q -> Q) (time : Q) es :
  forall i s, exists m g mat,
    snd (forEach (frozen_body sin time) i es s)
    = set_electronsMaterial (set_meshes s m g) mat.
Proof.
  induction es as [|e es IH]; intros i s; cbn [forEach].
  - exists (electronsMesh s), (electronsGlow s), (electronsMaterial s).
    destruct s; reflexivity.
  - destruct (frozen_body_state sin time i e s) as (m & g & mat & Hb).
    destruct (frozen_body sin time i e s) as [e' s1] eqn:E. simpl in Hb. subst s1.
    destruct (IH (S i) (set_electronsMaterial (set_meshes s m g) mat))
      as (m' & g' & mat' & Hr).
    destruct (forEach _ (S i) es _) as [es'' s2] eqn:E2. simpl in Hr |- *.
    subst s2. exists m', g', mat'. destruct s; reflexivity.
Qed.

(** ** The simulation volume *)

(** The lateral limit of a call: widened while charge accumulation is
    shown ([showEdgeAccumulation]). *)
Definition zLimitOf (m c : Q) : Q :=
  if Qltb 10 m && Qltb 1 c then 0.4 + (m / 100) * 0.1 else 0.4.

(** Drift axis within 2.5, vertical within 0.2, lateral within [zl]. *)
Definition in_box (zl : Q) (p : Vector3) : Prop :=
  -2.5 <= x p <= 2.5 /\ -0.2 <= y p <= 0.2 /\ - zl <= z p <= zl.

Lemma widening_nonneg (m : Q) : 0 <= m -> 0 <= (m / 100) * 0.1.
Proof.
  intro Hm. unfold Qdiv.
  repeat apply Qmult_le_0_compat; try assumption; vm_compute; discriminate.
Qed.

Lemma zLimitOf_ge (m c : Q) : 0 <= m -> 0.4 <= zLimitOf m c.
Proof.
  intro Hm. unfold zLimitOf. destruct (_ && _); [|lra].
  pose proof (widening_nonneg m Hm). lra.
Qed.

Lemma Forall2_impl_Forall (P Q' : Electron -> Prop) (l l' : list Electron) :
  Forall2 (fun e e' => P e -> Q' e') l l' -> Forall P l -> Forall Q' l'.
Proof.
  induction 1 as [|a b l l' Hab H IH]; intro HP; [constructor|].
  inversion HP; subst. constructor; auto.
Qed.

Lemma drift_nonpos (c d : Q) : 0 <= c -> 0 <= d -> - (0.5 * (c / 5)) * d * 1.5 <= 0.
Proof.
  intros Hc Hd. assert (0 <= c * d) by (apply Qmult_le_0_compat; assumption).
  assert (E : - (0.5 * (c / 5)) * d * 1.5 == - (3 # 20) * (c * d)) by field.
  rewrite E. lra.
Qed.

Lemma flow_body_in_box random sin c m dt t i e s :
  0 <= c -> 0 <= m -> 0 <= dt -> x (position e) <= 2.5 ->
  in_box (zLimitOf m c)
         (position (fst (flow_body random sin c m dt t (Qltb 10 m && Qltb 1 c) i e s))).
Proof.
  intros Hc Hm Hdt Hx. unfold zLimitOf.
  pose proof (drift_nonpos c dt Hc Hdt) as Hd.
  pose proof (widening_nonneg m Hm) as Hz.
  flow_unfold; unfold in_box; cbn.
  all: qbool; repeat split; try (apply clamp_bounds; lra); lra.
Qed.

(** Boolean version of [in_box], for evaluation on concrete states. *)
Definition in_boxb (zl : Q) (p : Vector3) : bool :=
  Qle_bool (-2.5) (x p) && Qle_bool (x p) 2.5 &&
  Qle_bool (-0.2) (y p) && Qle_bool (y p) 0.2 &&
  Qle_bool (- zl) (z p) && Qle_bool (z p) zl.

Lemma in_boxb_spec (zl : Q) (p : Vector3) : in_boxb zl p = true <-> in_box zl p.
Proof.
  unfold in_boxb, in_box. rewrite !andb_true_iff, !Qle_bool_iff. tauto.
Qed.

Lemma Forall_in_boxb (zl : Q) (es : list Electron) :
  forallb (fun e => in_boxb zl (position e)) es = true <->
  Forall (fun e => in_box zl (position e)) es.
Proof.
  rewrite forallb_forall, Forall_forall.
  split; intros H e He; [apply in_boxb_spec; auto | apply in_boxb_spec; auto].
Qed.

Lemma reset_body_in_box random zl i e s :
  (forall n, 0 <= random n <= 1) -> 0.2 <= zl ->
  in_box zl (position (fst (reset_body random i e s))).
Proof.
  intros Hr Hz. unfold reset_body, Math_random, in_box. cbn.
  pose proof (Hr (rand_cursor s)). pose proof (Hr (S (rand_cursor s))).
  pose proof (Hr (S (S (rand_cursor s)))).
  repeat split; lra.
Qed.

(** The position [resetElectronPositions] and [initializeElectrons] draw
    from three consecutive [Math.random()] values starting at cursor [k]. *)
Definition sample (random : nat -> Q) (k : nat) : Vector3 :=
  mkVector3 (random k * 4 - 2) (random (S k) * 0.2 - 0.1)
            (random (S (S k)) * 0.4 - 0.2).

Lemma reset_forEach_nth random es :
  forall i s j e,
    nth_error es j = Some e ->
    nth_error (fst (forEach (reset_body random) i es s)) j
    = Some (with_position e (sample random (rand_cursor s + 3 * j))).
Proof.
  induction es as [|e0 es IH]; intros i s j e Hj; [destruct j; discriminate|].
  cbn [forEach].
  destruct (reset_body random i e0 s) as [e' s1] eqn:E.
  assert (He' : e' = with_position e0 (sample random (rand_cursor s))).
  { unfold reset_body, Math_random in E. cbn in E. inversion E. reflexivity. }
  assert (Hs1 : rand_cursor s1 = S (S (S (rand_cursor s)))).
  { unfold reset_body, Math_random in E. cbn in E. inversion E. reflexivity. }
  specialize (IH (S i) s1).
  destruct (forEach (reset_body random) (S i) es s1) as [es'' s2] eqn:E2.
  cbn in IH. destruct j as [|j]; cbn in Hj |- *.
  - inversion Hj; subst. rewrite PeanoNat.Nat.add_0_r. reflexivity.
  - rewrite (IH j e Hj), Hs1. do 3 f_equal. lia.
Qed.

Lemma forEach_length body es :
  forall i s, length (fst (forEach body i es s)) = length es.
Proof.
  induction es as [|e es IH]; intros i s; cbn [forEach]; [reflexivity|].
  destruct (body i e s) as [e' s1].
  specialize (IH (S i) s1).
  destruct (forEach body (S i) es s1) as [es'' s2]. cbn in *. congruence.
Qed.

Lemma reset_forEach_cursor random es :
  forall i s s', rand_cursor s = rand_cursor s' ->
    fst (forEach (reset_body random) i es s) = fst (forEach (reset_body random) i es s').
Proof.
  induction es as [|e es IH]; intros i s s' Hc; cbn [forEach]; [reflexivity|].
  unfold reset_body at 1 3, Math_random. cbn -[forEach]. rewrite Hc.
  specialize (IH (S i)
    (setBothMatrices (set_rand_cursor (set_rand_cursor (set_rand_cursor s
       (S (rand_cursor s'))) (S (S (rand_cursor s')))) (S (S (S (rand_cursor s')))))
       i (sample random (rand_cursor s')) 1)
    (setBothMatrices (set_rand_cursor (set_rand_cursor (set_rand_cursor s'
       (S (rand_cursor s'))) (S (S (rand_cursor s')))) (S (S (S (rand_cursor s')))))
       i (sample random (rand_cursor s')) 1) eq_refl).
  unfold sample in IH. cbn in IH.
  destruct (forEach _ (S i) es _) as [l1 t1]; destruct (forEach _ (S i) es _) as [l2 t2].
  cbn in *. subst. reflexivity.
Qed.

Lemma reset_body_lastCurrentVal random i e s :
  lastCurrentVal (snd (reset_body random i e s)) = lastCurrentVal s.
Proof. reflexivity. Qed.

Lemma frozen_body_lastCurrentVal sin time i e s :
  lastCurrentVal (snd (frozen_body sin time i e s)) = lastCurrentVal s.
Proof. destruct (frozen_body_state sin time i e s) as (m & g & mat & ->). reflexivity. Qed.

Lemma flow_body_lastCurrentVal random sin c m dt t b i e s :
  lastCurrentVal (snd (flow_body random sin c m dt t b i e s)) = lastCurrentVal s.
Proof.
  unfold flow_body, Math_random. cbn.
  repeat match goal with
         | |- context [if ?c then _ else _] => destruct c
         end; reflexivity.
Qed.

Ltac sim_proj :=
  cbn [lastCurrentVal electrons movementEnabled rand_cursor set_electrons
       markBothNeedsUpdate set_meshes set_movementEnabled set_lastCurrentVal
       set_electronsMaterial resumeElectronMovement fst snd] in *.

(** Every call stores its sanitised current for the next call. *)
Lemma updateElectrons_lastCurrentVal random sin dt cv mv t s :
  lastCurrentVal (updateElectrons random sin dt cv mv t s) = sanitize cv.
Proof.
  unfold updateElectrons, resetElectronPositions. fold (sanitize cv) (sanitize mv).
  repeat (match goal with
          | |- context [if ?b then _ else _] => destruct b
          | |- context [match electronsMaterial ?s0 with _ => _ end] =>
              destruct (electronsMaterial s0)
          end; sim_proj).
  all: repeat match goal with
         | |- context [forEach ?b ?i ?es ?s0] =>
             lazymatch constr:((es, s0)) with
             | context [forEach _ _ _ _] => fail
             | _ => idtac
             end;
             let Hb := fresh "Hb" in
             assert (Hb : forall i' e s', lastCurrentVal (snd (b i' e s'))
                                          = lastCurrentVal s')
               by (intros; first [ apply reset_body_lastCurrentVal
                                 | apply frozen_body_lastCurrentVal
                                 | apply flow_body_lastCurrentVal ]);
             pose proof (forEach_field lastCurrentVal b Hb es i s0);
             clear Hb;
             destruct (forEach b i es s0) eqn:?; sim_proj
         end.
  all: congruence.
Qed.

(** A call with sanitised current at most 0.1 after such a call leaves
    the particles alone. *)
Definition frozen_frame (f : Frame) : Prop := sanitize (frame_current f) <= 0.1.

Lemma runFrames_frozen_quiet random sin fs :
  Forall frozen_frame fs ->
  forall s, lastCurrentVal s <= 0.1 ->
    electrons (runFrames random sin fs s) = electrons s.
Proof.
  induction 1 as [|f fs Hf Hfs IH]; intros s Hl; [reflexivity|].
  cbn [runFrames]. rewrite IH.
  - destruct (updateElectrons_cases random sin (frame_deltaTime f) (frame_current f)
                (frame_magneticField f) (frame_time f) s)
      as [(_ & E & _) | [(_ & _ & E) | (E & _)]].
    + qbool. lra.
    + exact E.
    + qbool. unfold frozen_frame in Hf. lra.
  - rewrite updateElectrons_lastCurrentVal. exact Hf.
Qed.

Lemma capped_step_bound (v d : Q) :
  0 <= d -> d <= 0.033 -> Qabs (v * d * 1.5) <= Qabs v * 0.033 * 1.5.
Proof.
  intros H0 H1. rewrite !Qabs_Qmult.
  rewrite (Qabs_pos d H0). rewrite (Qabs_pos 1.5) by lra.
  pose proof (Qabs_nonneg v). nra.
Qed.

(** ** Lifecycle *)

Lemma dispose_dispose (s : Sim) : dispose (dispose s) = dispose s.
Proof. reflexivity. Qed.

Lemma init_loop_length random n :
  forall i s, length (fst (init_loop random i n s)) = n.
Proof.
  induction n as [|n IH]; intros i s; [reflexivity|].
  cbn [init_loop]. unfold Math_random. cbn -[init_loop].
  match goal with
  | |- context [init_loop random (S i) n ?s0] =>
      specialize (IH (S i) s0); destruct (init_loop random (S i) n s0)
  end.
  cbn in *. congruence.
Qed.

Lemma init_loop_nth random n :
  forall i s j, (j < n)%nat ->
    nth_error (fst (init_loop random i n s)) j
    = Some (mkElectron (sample random (rand_cursor s + 3 * j)) (mkVector3 (-0.5) 0 0)
                       (i + j) (sample random (rand_cursor s + 3 * j)) []).
Proof.
  induction n as [|n IH]; intros i s j Hj; [lia|].
  cbn [init_loop]. unfold Math_random. cbn -[init_loop].
  match goal with
  | |- context [init_loop random (S i) n ?s0] =>
      pose proof (IH (S i) s0) as IH'; destruct (init_loop random (S i) n s0)
  end.
  cbn [fst rand_cursor setBothMatrices set_meshes set_rand_cursor] in IH'.
  destruct j as [|j]; cbn [fst nth_error].
  - unfold sample. rewrite !PeanoNat.Nat.add_0_r. reflexivity.
  - rewrite (IH' j ltac:(lia)).
    f_equal; f_equal; first [lia | f_equal; lia].
Qed.

Lemma updateElectrons_length random sin dt cv mv t s :
  length (electrons (updateElectrons random sin dt cv mv t s)) = length (electrons s).
Proof.
  destruct (updateElectrons_cases random sin dt cv mv t s)
    as [(_ & _ & ->) | [(_ & _ & ->) | (_ & s' & ->)]];
    [apply forEach_length | reflexivity | apply forEach_length].
Qed.

Lemma runFrames_length random sin fs :
  forall s, length (electrons (runFrames random sin fs s)) = length (electrons s).
Proof.
  induction fs as [|f fs IH]; intro s; [reflexivity|].
  cbn [runFrames]. rewrite IH. apply updateElectrons_length.
Qed.

(** The volume [initializeElectrons] and [resetElectronPositions] draw
    positions from. *)
Definition in_spawn_volume (p : Vector3) : Prop :=
  -2 <= x p <= 2 /\ -0.1 <= y p <= 0.1 /\ -0.2 <= z p <= 0.2.

Lemma sample_in_spawn_volume random k :
  (forall n, 0 <= random n <= 1) -> in_spawn_volume (sample random k).
Proof.
  intro Hr. unfold sample, in_spawn_volume. cbn.
  pose proof (Hr k). pose proof (Hr (S k)). pose proof (Hr (S (S k))).
  repeat split; lra.
Qed.

(** ** Concrete runs *)

(** A [Math.random] stream and a [Math.sin] for evaluation. *)
Definition rand_const (q : Q) : nat -> Q := fun _ => q.
Definition sin_zero : Q -> Q := fun _ => 0.

(** A [Math.random] stream that returns the values of [l], then [d]. *)
Definition rand_list (l : list Q) (d : Q) : nat -> Q := fun n => nth n l d.

(** [new ElectronSimulation(scene).initializeElectrons(n)] with the
    [Math.random] stream [random]. *)
Definition fresh_batch (random : nat -> Q) (n : nat) : Sim :=
  snd (initializeElectrons random n (newElectronSimulation 0)).

(** ** Claims *)

(** Fields the update never writes: [id], [initialPosition],
    [trailPoints] and the y and z components of [velocity]. *)
Definition update_frame (e e' : Electron) : Prop :=
  id e' = id e /\ initialPosition e' = initialPosition e /\
  trailPoints e' = trailPoints e /\
  y (velocity e') = y (velocity e) /\ z (velocity e') = z (velocity e).

(** C10: every call of [updateElectrons] leaves each particle's [id],
    [initialPosition] and [trailPoints] and the y and z components of its
    velocity unchanged (only [velocity.x] is written; deflection and jitter
    touch the position only), and neither adds nor removes particles. *)
Theorem updateElectrons_frame_fields random sin dt cv mv t s :
  Forall2 update_frame (electrons s)
          (electrons (updateElectrons random sin dt cv mv t s)).
Proof.
  destruct (updateElectrons_cases random sin dt cv mv t s)
    as [(_ & _ & ->) | [(_ & _ & ->) | (_ & s' & ->)]].
  - apply forEach_Forall2. intros i e s0.
    unfold reset_body, Math_random. simpl. repeat split.
  - apply Forall2_refl. intro e. repeat split.
  - apply forEach_Forall2. intros i e s0.
    flow_unfold; repeat split.
Qed.

(** C5: a [NaN] or negative [currentVal] is coerced to 0 before anything
    else: the call has exactly the effect of the same call with current 0
    (for every particle state, deltaTime, field and time; the model is
    total, the call returns normally). *)
Theorem updateElectrons_invalid_current random sin dt mv t s q :
  q < 0 ->
  updateElectrons random sin dt JNaN mv t s
  = updateElectrons random sin dt (JNum 0) mv t s /\
  updateElectrons random sin dt (JNum q) mv t s
  = updateElectrons random sin dt (JNum 0) mv t s.
Proof.
  intro Hq. split; apply updateElectrons_sanitized_current.
  - reflexivity.
  - rewrite sanitize_neg by exact Hq. reflexivity.
Qed.

(** C3: a call with sanitised current at most 0.1 that sees no freeze
    edge (the stored previous current is at most 0.1) changes no particle:
    the resulting object differs from the input only in the stored current
    and in the rendering state (instance buffers and material). *)
Theorem updateElectrons_frozen_frame random sin dt cv mv t s :
  sanitize cv <= 0.1 -> lastCurrentVal s <= 0.1 ->
  exists m g mat,
    updateElectrons random sin dt cv mv t s
    = set_electronsMaterial (set_meshes (set_lastCurrentVal s (sanitize cv)) m g) mat.
Proof.
  intros Hc Hl. unfold updateElectrons. fold (sanitize cv) (sanitize mv).
  assert (E1 : Qle_bool (sanitize cv) 0.1 = true) by (apply Qle_bool_iff; exact Hc).
  assert (E2 : Qltb 0.1 (lastCurrentVal s) = false) by (apply Qltb_false; exact Hl).
  assert (E3 : Qltb 0.1 (sanitize cv) = false) by (apply Qltb_false; exact Hc).
  rewrite E1, E2, E3, andb_false_r. simpl.
  destruct (frozen_forEach_state sin t (electrons s) 0
              (set_lastCurrentVal s (sanitize cv))) as (m & g & mat & ->).
  exists (markNeedsUpdate m), (markNeedsUpdate g), mat.
  destruct s; reflexivity.
Qed.

(** C1 (as amended): for every call with a non-negative [deltaTime] (as
    every caller passes: a difference of [performance.now()] readings, or
    0.016) and [Math.random] in [0, 1], each particle that is inside the
    volume of the call before it (drift axis within 2.5, vertical within
    0.2, lateral within the call's limit [zLimitOf]: 0.4, or
    0.4 + (magneticField/100)*0.1 while accumulation is shown, that is
    magneticField > 10 and current > 1, both sanitised) is inside it after
    the call, whatever the other particles are. *)
Theorem updateElectrons_in_box random sin dt cv mv t s :
  (forall n, 0 <= random n <= 1) -> 0 <= dt ->
  Forall2 (fun e e' =>
      in_box (zLimitOf (sanitize mv) (sanitize cv)) (position e) ->
      in_box (zLimitOf (sanitize mv) (sanitize cv)) (position e'))
    (electrons s) (electrons (updateElectrons random sin dt cv mv t s)).
Proof.
  intros Hr Hdt.
  pose proof (zLimitOf_ge (sanitize mv) (sanitize cv) (sanitize_nonneg mv)) as Hz.
  destruct (updateElectrons_cases random sin dt cv mv t s)
    as [(_ & _ & ->) | [(_ & _ & ->) | (_ & s' & ->)]].
  - apply forEach_Forall2. intros i e s0 _.
    apply reset_body_in_box; [exact Hr | lra].
  - apply Forall2_refl. intros e He. exact He.
  - apply forEach_Forall2. intros i e s0 He.
    apply flow_body_in_box.
    + apply sanitize_nonneg.
    + apply sanitize_nonneg.
    + apply Math_min_ge; [exact Hdt | lra].
    + apply He.
Qed.

(** C1 as stated fails: one particle at x = 1.6 (inside the volume) with
    deltaTime = -2 and current 5 moves to x = 3.1, outside the drift
    range; [Math.min] caps deltaTime from above only. *)
Lemma updateElectrons_in_box_negative_dt :
  Forall (fun e => in_box 0.4 (position e)) (electrons (fresh_batch (rand_const 0.9) 1)) /\
  ~ Forall (fun e => in_box 0.4 (position e))
      (electrons (updateElectrons (rand_const 0.9) sin_zero (-2) (JNum 5) (JNum 0) 0
                                  (fresh_batch (rand_const 0.9) 1))).
Proof.
  split.
  - apply Forall_in_boxb. vm_compute. reflexivity.
  - rewrite <- Forall_in_boxb. vm_compute. discriminate.
Qed.

(** Witness of [updateElectrons_in_box]: two particles at different
    places, field 20 and current 5, so the widened lateral limit applies. *)
Lemma updateElectrons_in_box_witness :
  (forall n, 0 <= rand_list [0.1; 0.5; 0.9; 0.8; 0.3; 0.2] 0.5 n <= 1) /\ 0 <= 0.016 /\
  Forall2 (fun e e' =>
      in_box (zLimitOf (sanitize (JNum 20)) (sanitize (JNum 5))) (position e) ->
      in_box (zLimitOf (sanitize (JNum 20)) (sanitize (JNum 5))) (position e'))
    (electrons (fresh_batch (rand_list [0.1; 0.5; 0.9; 0.8; 0.3; 0.2] 0.5) 2))
    (electrons (updateElectrons (rand_list [0.1; 0.5; 0.9; 0.8; 0.3; 0.2] 0.5) sin_zero
                                0.016 (JNum 5) (JNum 20) 0
                                (fresh_batch (rand_list [0.1; 0.5; 0.9; 0.8; 0.3; 0.2] 0.5) 2))).
Proof.
  assert (Hr : forall n, 0 <= rand_list [0.1; 0.5; 0.9; 0.8; 0.3; 0.2] 0.5 n <= 1).
  { intro n. unfold rand_list.
    do 6 (destruct n as [|n]; [cbn [nth]; lra|]). destruct n; cbn [nth]; lra. }
  split; [exact Hr|]. split; [lra|].
  exact (updateElectrons_in_box (rand_list [0.1; 0.5; 0.9; 0.8; 0.3; 0.2] 0.5) sin_zero
           0.016 (JNum 5) (JNum 20) 0
           (fresh_batch (rand_list [0.1; 0.5; 0.9; 0.8; 0.3; 0.2] 0.5) 2) Hr ltac:(lra)).
Defined.

(** A batch of one particle after one flowing frame (current 5). *)
Definition flowing_batch : Sim :=
  updateElectrons (rand_const 0.5) sin_zero 0.016 (JNum 5) (JNum 0) 0 (fresh_batch (rand_const 0.5) 1).

(** C2 (as amended): in a call that sees the freeze edge (stored previous
    current above 0.1, sanitised current at most 0.1), every particle's
    position is reassigned from three fresh [Math.random()] draws,
    [(4 r1 - 2, 0.2 r2 - 0.1, 0.4 r3 - 0.2)] for the [j]-th particle the
    draws [3j], [3j+1], [3j+2] from the cursor, so uniformly within
    [-2,2] x [-0.1,0.1] x [-0.2,0.2]; everything else of the particle,
    its velocity included, is kept, and movement is disabled. *)
Theorem updateElectrons_freeze_edge random sin dt cv mv t s :
  0.1 < lastCurrentVal s -> sanitize cv <= 0.1 ->
  let s' := updateElectrons random sin dt cv mv t s in
  length (electrons s') = length (electrons s) /\
  (forall j e, nth_error (electrons s) j = Some e ->
     nth_error (electrons s') j
     = Some (with_position e (sample random (rand_cursor s + 3 * j)))) /\
  movementEnabled s' = false.
Proof.
  intros Hl Hc s'.
  destruct (updateElectrons_cases random sin dt cv mv t s)
    as [(_ & _ & E) | [(_ & Hl' & _) | (Hc' & _)]].
  - split; [|split].
    + subst s'. rewrite E. apply forEach_length.
    + intros j e Hj. subst s'. rewrite E.
      exact (reset_forEach_nth random (electrons s) 0 (set_lastCurrentVal s (sanitize cv)) j e Hj).
    + subst s'. unfold updateElectrons. fold (sanitize cv) (sanitize mv).
      assert (E1 : Qle_bool (sanitize cv) 0.1 = true) by (apply Qle_bool_iff; exact Hc).
      assert (E2 : Qltb 0.1 (lastCurrentVal s) = true) by (apply Qltb_true; exact Hl).
      rewrite E1, E2. cbn -[forEach].
      unfold resetElectronPositions. cbn -[forEach].
      destruct (forEach (reset_body random) 0 _ _) as [es s1]. cbn -[forEach].
      destruct (frozen_forEach_state sin t es 0
                  (set_movementEnabled (markBothNeedsUpdate (set_electrons s1 es)) false))
        as (m & g & mat & ->).
      reflexivity.
  - qbool. lra.
  - qbool. lra.
Qed.

(** Witness of [updateElectrons_freeze_edge]: current 5 then 0. *)
Lemma updateElectrons_freeze_edge_witness :
  0.1 < lastCurrentVal flowing_batch /\ sanitize (JNum 0) <= 0.1 /\
  let s' := updateElectrons (rand_const 0.5) sin_zero 0.016 (JNum 0) (JNum 0) 1 flowing_batch in
  length (electrons s') = length (electrons flowing_batch) /\
  (forall j e, nth_error (electrons flowing_batch) j = Some e ->
     nth_error (electrons s') j
     = Some (with_position e (sample (rand_const 0.5) (rand_cursor flowing_batch + 3 * j)))) /\
  movementEnabled s' = false.
Proof.
  assert (H1 : 0.1 < lastCurrentVal flowing_batch) by (vm_compute; reflexivity).
  assert (H2 : sanitize (JNum 0) <= 0.1) by (vm_compute; discriminate).
  split; [exact H1|]. split; [exact H2|].
  exact (updateElectrons_freeze_edge (rand_const 0.5) sin_zero 0.016 (JNum 0) (JNum 0) 1
           flowing_batch H1 H2).
Defined.

(** C2 as stated fails: after the freeze edge the particle's velocity is
    still the drift velocity (-0.5, 0, 0) of the last flowing frame. *)
Lemma updateElectrons_freeze_velocity_kept :
  ~ Forall (fun e => x (velocity e) == 0 /\ y (velocity e) == 0 /\ z (velocity e) == 0)
      (electrons (updateElectrons (rand_const 0.5) sin_zero 0.016 (JNum 0) (JNum 0) 1
                                  flowing_batch)).
Proof.
  intro H. vm_compute in H. inversion H as [|e l [Hx _] _]. vm_compute in Hx.
  discriminate.
Qed.

(** C4: the controller stores each call's sanitised current
    ([lastCurrentVal]); a run of calls whose current stays at most 0.1
    redistributes the particles exactly when the value stored before the
    run is above 0.1 (the freeze edge), and then only in its first call:
    the later calls of the run leave the particles alone. A call with
    current above 0.1 never redistributes: it integrates the particles it
    is given. *)
Theorem updateElectrons_freeze_once random sin f fs s :
  Forall frozen_frame fs ->
  lastCurrentVal (updateElectrons random sin (frame_deltaTime f) (frame_current f)
                    (frame_magneticField f) (frame_time f) s)
  = sanitize (frame_current f) /\
  (sanitize (frame_current f) <= 0.1 ->
   electrons (runFrames random sin (f :: fs) s)
   = if Qltb 0.1 (lastCurrentVal s)
     then fst (forEach (reset_body random) 0 (electrons s) s)
     else electrons s) /\
  (0.1 < sanitize (frame_current f) ->
   exists s',
     electrons (updateElectrons random sin (frame_deltaTime f) (frame_current f)
                  (frame_magneticField f) (frame_time f) s)
     = fst (forEach (flow_body random sin (sanitize (frame_current f))
                       (sanitize (frame_magneticField f))
                       (Math_min (frame_deltaTime f) 0.033) (frame_time f)
                       (Qltb 10 (sanitize (frame_magneticField f)) &&
                        Qltb 1 (sanitize (frame_current f))))
                    0 (electrons s) s')).
Proof.
  intro Hfs.
  destruct (updateElectrons_cases random sin (frame_deltaTime f) (frame_current f)
              (frame_magneticField f) (frame_time f) s)
    as [(Hc & Hl & E) | [(Hc & Hl & E) | (Hc & s' & E)]];
    (split; [apply updateElectrons_lastCurrentVal|]).
  - split; [|intro H; qbool; lra].
    intro H. cbn [runFrames].
    rewrite runFrames_frozen_quiet;
      [| exact Hfs | rewrite updateElectrons_lastCurrentVal; exact H].
    rewrite E, Hl. apply reset_forEach_cursor. reflexivity.
  - split; [|intro H; qbool; lra].
    intro H. cbn [runFrames].
    rewrite runFrames_frozen_quiet;
      [| exact Hfs | rewrite updateElectrons_lastCurrentVal; exact H].
    rewrite E, Hl. reflexivity.
  - split; [intro H; qbool; lra|].
    intros _. exists s'. exact E.
Qed.

(** Witness of [updateElectrons_freeze_once]: after a flowing frame, three
    frames with current 0. *)
Lemma updateElectrons_freeze_once_witness :
  Forall frozen_frame [mkFrame 0.016 (JNum 0) (JNum 0) 2; mkFrame 0.016 JNaN (JNum 0) 3] /\
  lastCurrentVal (updateElectrons (rand_const 0.5) sin_zero 0.016 (JNum 0) (JNum 0) 1
                    flowing_batch) = sanitize (JNum 0) /\
  (sanitize (JNum 0) <= 0.1 ->
   electrons (runFrames (rand_const 0.5) sin_zero
                [mkFrame 0.016 (JNum 0) (JNum 0) 1; mkFrame 0.016 (JNum 0) (JNum 0) 2;
                 mkFrame 0.016 JNaN (JNum 0) 3] flowing_batch)
   = if Qltb 0.1 (lastCurrentVal flowing_batch)
     then fst (forEach (reset_body (rand_const 0.5)) 0 (electrons flowing_batch)
                 flowing_batch)
     else electrons flowing_batch) /\
  (0.1 < sanitize (JNum 0) ->
   exists s',
     electrons (updateElectrons (rand_const 0.5) sin_zero 0.016 (JNum 0) (JNum 0) 1
                  flowing_batch)
     = fst (forEach (flow_body (rand_const 0.5) sin_zero (sanitize (JNum 0))
                       (sanitize (JNum 0)) (Math_min 0.016 0.033) 1
                       (Qltb 10 (sanitize (JNum 0)) && Qltb 1 (sanitize (JNum 0))))
                    0 (electrons flowing_batch) s')).
Proof.
  assert (Hfs : Forall frozen_frame
                  [mkFrame 0.016 (JNum 0) (JNum 0) 2; mkFrame 0.016 JNaN (JNum 0) 3])
    by (repeat constructor; vm_compute; discriminate).
  split; [exact Hfs|].
  exact (updateElectrons_freeze_once (rand_const 0.5) sin_zero
           (mkFrame 0.016 (JNum 0) (JNum 0) 1)
           [mkFrame 0.016 (JNum 0) (JNum 0) 2; mkFrame 0.016 JNaN (JNum 0) 3]
           flowing_batch Hfs).
Defined.

(** Witness of [updateElectrons_invalid_current]: current -5. *)
Lemma updateElectrons_invalid_current_witness :
  -5 < 0 /\
  updateElectrons (rand_const 0.5) sin_zero 0.016 JNaN (JNum 20) 0 (fresh_batch (rand_const 0.5) 2)
  = updateElectrons (rand_const 0.5) sin_zero 0.016 (JNum 0) (JNum 20) 0 (fresh_batch (rand_const 0.5) 2) /\
  updateElectrons (rand_const 0.5) sin_zero 0.016 (JNum (-5)) (JNum 20) 0 (fresh_batch (rand_const 0.5) 2)
  = updateElectrons (rand_const 0.5) sin_zero 0.016 (JNum 0) (JNum 20) 0 (fresh_batch (rand_const 0.5) 2).
Proof.
  assert (H : -5 < 0) by lra. split; [exact H|].
  exact (updateElectrons_invalid_current (rand_const 0.5) sin_zero 0.016 (JNum 20) 0
           (fresh_batch (rand_const 0.5) 2) (-5) H).
Defined.

(** Witness of [updateElectrons_frozen_frame]: a fresh batch (stored
    current 0) and current 0.05. *)
Lemma updateElectrons_frozen_frame_witness :
  sanitize (JNum 0.05) <= 0.1 /\ lastCurrentVal (fresh_batch (rand_const 0.5) 2) <= 0.1 /\
  exists m g mat,
    updateElectrons (rand_const 0.5) sin_zero 0.016 (JNum 0.05) (JNum 20) 0 (fresh_batch (rand_const 0.5) 2)
    = set_electronsMaterial (set_meshes (set_lastCurrentVal (fresh_batch (rand_const 0.5) 2)
                                           (sanitize (JNum 0.05))) m g) mat.
Proof.
  assert (H1 : sanitize (JNum 0.05) <= 0.1) by (vm_compute; discriminate).
  assert (H2 : lastCurrentVal (fresh_batch (rand_const 0.5) 2) <= 0.1) by (vm_compute; discriminate).
  split; [exact H1|]. split; [exact H2|].
  exact (updateElectrons_frozen_frame (rand_const 0.5) sin_zero 0.016 (JNum 0.05) (JNum 20) 0
           (fresh_batch (rand_const 0.5) 2) H1 H2).
Defined.

(** Closes a goal with a contradictory hypothesis on closed booleans. *)
Ltac closed_bool_contra :=
  match goal with
  | H : _ = true |- _ => vm_compute in H; discriminate H
  | H : _ = false |- _ => vm_compute in H; discriminate H
  end.

(** C6 (as amended): in a call with magneticField 0 and current 5 a
    particle's lateral coordinate changes only when the particle wraps
    around the left end of the drift axis in that call (its drift position
    after the advance is below -2.5; it is then put at 2.5 and its lateral
    coordinate is drawn again); otherwise it is left as it was. *)
Theorem updateElectrons_zero_field_lateral random sin dt t s :
  Forall2 (fun e e' =>
      -0.4 <= z (position e) <= 0.4 ->
      let x1 := x (position e) + x (velocity e') * Math_min dt 0.033 * 1.5 in
      (-2.5 <= x1 /\ z (position e') == z (position e)) \/
      (x1 < -2.5 /\ x (position e') = 2.5))
    (electrons s) (electrons (updateElectrons random sin dt (JNum 5) (JNum 0) t s)).
Proof.
  destruct (updateElectrons_cases random sin dt (JNum 5) (JNum 0) t s)
    as [(Hc & _) | [(Hc & _) | (_ & s' & ->)]];
    [closed_bool_contra | closed_bool_contra |].
  apply forEach_Forall2. intros i e s0 Hz.
  flow_unfold; try closed_bool_contra.
  - right. qbool. split; [assumption | reflexivity].
  - left. qbool. split; [assumption|]. apply clamp_id. lra.
Qed.

(** C6 as stated fails: a particle initialised at (-2, -0.1, -0.2) wraps
    in the 21st frame (deltaTime 0.033, field 0, current 5) and its lateral
    coordinate is drawn again, here 0. *)
Lemma updateElectrons_zero_field_wrap_moves_z :
  ~ Forall (fun e => z (position e) == z (initialPosition e))
      (electrons (runFrames (rand_list [0; 0; 0] 0.5) sin_zero
                    (repeat (mkFrame 0.033 (JNum 5) (JNum 0) 0) 21)
                    (fresh_batch (rand_list [0; 0; 0] 0.5) 1))).
Proof.
  intro H. vm_compute in H. inversion H as [|e l Hz _]. vm_compute in Hz.
  discriminate.
Qed.

(** C7 (as amended): in every call with sanitised current above 0.1 each
    particle's drift velocity is set to [-0.5 * current / 5] (linear in the
    current, against the nominal current direction); its drift position is
    advanced by [velocity.x * Math.min(deltaTime, 0.033) * 1.5] and then
    wrapped to 2.5 if it fell below -2.5; for a non-negative deltaTime the
    advance is at most [1.5 * |velocity.x| * 0.033], however large
    deltaTime is. *)
Theorem updateElectrons_drift random sin dt cv mv t s :
  0.1 < sanitize cv ->
  Forall2 (fun e e' =>
      x (velocity e') = - (0.5 * (sanitize cv / 5)) /\
      (let x1 := x (position e) + x (velocity e') * Math_min dt 0.033 * 1.5 in
       (x1 < -2.5 /\ x (position e') = 2.5) \/ (-2.5 <= x1 /\ x (position e') = x1)) /\
      (0 <= dt ->
       Qabs (x (velocity e') * Math_min dt 0.033 * 1.5)
       <= Qabs (x (velocity e')) * 0.033 * 1.5))
    (electrons s) (electrons (updateElectrons random sin dt cv mv t s)).
Proof.
  intro Hc.
  destruct (updateElectrons_cases random sin dt cv mv t s)
    as [(Hc' & _) | [(Hc' & _) | (_ & s' & ->)]]; [qbool; lra | qbool; lra |].
  apply forEach_Forall2. intros i e s0.
  assert (Hcap : 0 <= dt -> 0 <= Math_min dt 0.033 <= 0.033).
  { intro H. split; [apply Math_min_ge; lra | unfold Math_min;
                     destruct (Qltb 0.033 dt) eqn:E; qbool; lra]. }
  flow_unfold; qbool.
  all: split; [reflexivity|].
  all: split; [first [ left; split; [assumption | reflexivity]
                     | right; split; [assumption | reflexivity] ]|].
  all: intro Hdt; destruct (Hcap Hdt); apply capped_step_bound; assumption.
Qed.

(** Witness of [updateElectrons_drift]: current 5, field 20. *)
Lemma updateElectrons_drift_witness :
  0.1 < sanitize (JNum 5) /\
  Forall2 (fun e e' =>
      x (velocity e') = - (0.5 * (sanitize (JNum 5) / 5)) /\
      (let x1 := x (position e) + x (velocity e') * Math_min 0.016 0.033 * 1.5 in
       (x1 < -2.5 /\ x (position e') = 2.5) \/ (-2.5 <= x1 /\ x (position e') = x1)) /\
      (0 <= 0.016 ->
       Qabs (x (velocity e') * Math_min 0.016 0.033 * 1.5)
       <= Qabs (x (velocity e')) * 0.033 * 1.5))
    (electrons (fresh_batch (rand_const 0.5) 2))
    (electrons (updateElectrons (rand_const 0.5) sin_zero 0.016 (JNum 5) (JNum 20) 0
                                (fresh_batch (rand_const 0.5) 2))).
Proof.
  assert (H : 0.1 < sanitize (JNum 5)) by (vm_compute; reflexivity).
  split; [exact H|].
  exact (updateElectrons_drift (rand_const 0.5) sin_zero 0.016 (JNum 5) (JNum 20) 0
           (fresh_batch (rand_const 0.5) 2) H).
Defined.

(** C7 as stated fails: with deltaTime = -2 (not capped from below) and
    current 5 a particle at x = 1.6 advances by 1.5, far beyond
    [1.5 * |velocity.x| * 0.033 = 0.02475]. *)
Lemma updateElectrons_drift_negative_dt :
  ~ Forall2 (fun e e' =>
        Qabs (x (position e') - x (position e)) <= Qabs (x (velocity e')) * 0.033 * 1.5)
      (electrons (fresh_batch (rand_const 0.9) 1))
      (electrons (updateElectrons (rand_const 0.9) sin_zero (-2) (JNum 5) (JNum 0) 0
                                  (fresh_batch (rand_const 0.9) 1))).
Proof.
  intro H. vm_compute in H. inversion H as [|e e' l l' Hb _]. vm_compute in Hb.
  apply Hb. reflexivity.
Qed.

(** C8 (as amended): [initializeElectrons(n)] gives the same result as on
    the disposed object (it disposes any prior batch first); it returns
    exactly [n] particles, stored as [this.electrons], the [j]-th with id
    [j], a position drawn from three fresh [Math.random()] values (so
    uniformly within [-2,2] x [-0.1,0.1] x [-0.2,0.2]) and the velocity
    (-0.5, 0, 0); and the number of particles stays [n] over any sequence
    of update calls. *)
Theorem initializeElectrons_contract random sin n s :
  let r := initializeElectrons random n s in
  r = initializeElectrons random n (dispose s) /\
  fst r = electrons (snd r) /\
  length (fst r) = n /\
  (forall j, (j < n)%nat ->
     nth_error (fst r) j
     = Some (mkElectron (sample random (rand_cursor s + 3 * j)) (mkVector3 (-0.5) 0 0)
                        j (sample random (rand_cursor s + 3 * j)) [])) /\
  ((forall k, 0 <= random k <= 1) ->
   Forall (fun e => in_spawn_volume (position e)) (fst r)) /\
  (forall fs, length (electrons (runFrames random sin fs (snd r))) = n).
Proof.
  intro r.
  assert (Hfst : fst r = fst (init_loop random 0 n
    (mkSim (electrons (dispose s)) (scene (dispose s) ++ [ElectronsMeshObj; ElectronsGlowObj])
       (lastCurrentVal (dispose s)) (movementEnabled (dispose s))
       (Some (newInstancedMesh n)) (Some (newInstancedMesh n))
       (Some (mkSphereGeometry 0.05 16 16))
       (Some (mkMeshStandardMaterial (ColorHex 1982639) 0.7))
       (Some (mkSphereGeometry 0.08 12 12)) (Some (mkMeshBasicMaterial 0.15))
       (rand_cursor (dispose s))))).
  { subst r. unfold initializeElectrons. destruct (init_loop _ _ _ _). reflexivity. }
  assert (Hsnd : electrons (snd r) = fst r).
  { subst r. unfold initializeElectrons. destruct (init_loop _ _ _ _). reflexivity. }
  assert (Hnth : forall j, (j < n)%nat ->
     nth_error (fst r) j
     = Some (mkElectron (sample random (rand_cursor s + 3 * j)) (mkVector3 (-0.5) 0 0)
                        j (sample random (rand_cursor s + 3 * j)) [])).
  { intros j Hj. rewrite Hfst, init_loop_nth by exact Hj. reflexivity. }
  assert (Hlen : length (fst r) = n) by (rewrite Hfst; apply init_loop_length).
  split; [unfold r, initializeElectrons; rewrite dispose_dispose; reflexivity|].
  split; [symmetry; exact Hsnd|].
  split; [exact Hlen|].
  split; [exact Hnth|].
  split.
  - intro Hr. apply Forall_forall. intros e He.
    destruct (In_nth_error _ _ He) as (j & Hj).
    assert (Hjn : (j < n)%nat).
    { rewrite <- Hlen. apply nth_error_Some. congruence. }
    rewrite (Hnth j Hjn) in Hj. injection Hj as <-.
    apply sample_in_spawn_volume; exact Hr.
  - intro fs. rewrite runFrames_length, Hsnd. exact Hlen.
Qed.

(** C8 as stated fails: the particles are created with velocity
    (-0.5, 0, 0), not zero. *)
Lemma initializeElectrons_velocity_nonzero :
  ~ Forall (fun e => x (velocity e) == 0 /\ y (velocity e) == 0 /\ z (velocity e) == 0)
      (electrons (fresh_batch (rand_const 0.5) 1)).
Proof.
  intro H. vm_compute in H. inversion H as [|e l [Hx _] _]. vm_compute in Hx.
  discriminate.
Qed.

(** An object without a batch: no particles, no meshes, no material,
    as after [new ElectronSimulation(scene)] or [dispose()]. *)
Definition no_batch (s : Sim) : Prop :=
  electrons s = [] /\ electronsMesh s = None /\ electronsGlow s = None /\
  electronsMaterial s = None.

Lemma set_flags_twice (s : Sim) (a c : Q) (b d : bool) :
  set_movementEnabled (set_lastCurrentVal (set_movementEnabled (set_lastCurrentVal s a) b) c) d
  = set_movementEnabled (set_lastCurrentVal s c) d.
Proof. destruct s; reflexivity. Qed.

Lemma no_batch_set_flags (s : Sim) (a : Q) (b : bool) :
  no_batch s -> no_batch (set_movementEnabled (set_lastCurrentVal s a) b).
Proof. destruct s; exact (fun H => H). Qed.

Lemma updateElectrons_no_batch random sin dt cv mv t s :
  no_batch s ->
  exists lv me, updateElectrons random sin dt cv mv t s
                = set_movementEnabled (set_lastCurrentVal s lv) me.
Proof.
  intro Hs. exists (sanitize cv), (movementEnabled (updateElectrons random sin dt cv mv t s)).
  destruct s as [es sc lv me m g geo mat ggeo gmat cur].
  unfold no_batch in Hs. cbn in Hs. destruct Hs as (-> & -> & -> & ->).
  unfold updateElectrons, resetElectronPositions. fold (sanitize cv) (sanitize mv).
  unfold Qltb.
  destruct (Qle_bool (sanitize cv) 0.1); destruct (Qle_bool lv 0.1); destruct me;
    cbn -[sanitize Qle_bool Qmult Qplus Qdiv Qminus Math_min].
  all: repeat (match goal with
               | |- context [if ?b then _ else _] =>
                   lazymatch type of b with bool => destruct b end
               end; cbn -[sanitize Qle_bool Qmult Qplus Qdiv Qminus Math_min]);
       reflexivity.
Qed.

Lemma runFrames_no_batch random sin :
  forall fs s, no_batch s ->
  exists lv me, runFrames random sin fs s = set_movementEnabled (set_lastCurrentVal s lv) me.
Proof.
  induction fs as [|f fs IH]; intros s Hs.
  - exists (lastCurrentVal s), (movementEnabled s). destruct s; reflexivity.
  - cbn [runFrames].
    destruct (updateElectrons_no_batch random sin (frame_deltaTime f) (frame_current f)
                (frame_magneticField f) (frame_time f) s Hs) as (lv & me & ->).
    destruct (IH _ (no_batch_set_flags s lv me Hs)) as (lv' & me' & ->).
    exists lv', me'. apply set_flags_twice.
Qed.

(** C9 (as amended): lifecycle misuse is not detected. [updateElectrons]
    and [dispose] contain no [throw] and guard every access to a nullable
    field with [if (this.field)], so each call returns normally: a second
    [dispose()] leaves the object exactly as the first one did, and any
    sequence of update calls on an object that was never initialised, or
    was disposed, changes only the stored previous current and the
    movement flag; the object stays without particles, meshes or
    material. *)
Theorem lifecycle_misuse_silent random sin fs k s :
  dispose (dispose s) = dispose s /\
  (exists lv me, runFrames random sin fs (newElectronSimulation k)
                 = set_movementEnabled (set_lastCurrentVal (newElectronSimulation k) lv) me) /\
  (exists lv me, runFrames random sin fs (dispose s)
                 = set_movementEnabled (set_lastCurrentVal (dispose s) lv) me).
Proof.
  split; [apply dispose_dispose|]. split.
  - apply runFrames_no_batch. repeat split.
  - apply runFrames_no_batch. repeat split.
Qed.

(** C9 as stated fails: both misuses return normally, with the states
    [lifecycle_misuse_silent] describes. *)
Lemma lifecycle_misuse_returns :
  dispose (dispose (fresh_batch (rand_const 0.5) 2)) = dispose (fresh_batch (rand_const 0.5) 2) /\
  updateElectrons (rand_const 0.5) sin_zero 0.016 (JNum 5) (JNum 20) 0 (newElectronSimulation 0)
  = mkSim [] [] 5 true None None None None None None 0.
Proof. split; vm_compute; reflexivity. Qed.

(** ** Sequences of public calls *)

(** A call of the public interface of [ElectronSimulation]; an update
    receives [this.electrons] (see the header). *)
Inductive Call : Type :=
| CallInit (count : nat)
| CallUpdate (f : Frame)
| CallDispose.

Definition runCall (random : nat -> Q) (sin : Q -> Q) (c : Call) (s : Sim) : Sim :=
  match c with
  | CallInit count => snd (initializeElectrons random count s)
  | CallUpdate f => updateElectrons random sin (frame_deltaTime f) (frame_current f)
                                    (frame_magneticField f) (frame_time f) s
  | CallDispose => dispose s
  end.

Fixpoint runCalls (random : nat -> Q) (sin : Q -> Q) (cs : list Call) (s : Sim) : Sim :=
  match cs with
  | [] => s
  | c :: cs' => runCalls random sin cs' (runCall random sin c s)
  end.

(** An invariant of the simulation object kept by every public call holds
    after any sequence of calls on a new object. *)
Lemma runCalls_invariant (P : Sim -> Prop) random sin
    (Hstep : forall c s, P s -> P (runCall random sin c s)) :
  forall cs s, P s -> P (runCalls random sin cs s).
Proof.
  induction cs as [|c cs IH]; intros s Hs; [exact Hs|]. cbn [runCalls].
  apply IH, Hstep, Hs.
Qed.

(** ** Instance buffers *)

(** The particle mesh ([false]) or the glow mesh ([true]). *)
Definition mesh_of (glow : bool) (s : Sim) : option InstancedMesh :=
  if glow then electronsGlow s else electronsMesh s.

(** The instance buffer of an allocated mesh holds, in order, the
    positions of the particles. *)
Definition buffer_synced (m : option InstancedMesh) (es : list Electron) : Prop :=
  match m with
  | None => True
  | Some m => map fst (instanceMatrix m) = map position es
  end.

Definition render_synced (s : Sim) : Prop :=
  buffer_synced (electronsMesh s) (electrons s) /\
  buffer_synced (electronsGlow s) (electrons s).

Definition buffer_len (m : option InstancedMesh) (n : nat) : Prop :=
  match m with
  | None => True
  | Some m => length (instanceMatrix m) = n
  end.

Lemma buffer_synced_len (m : option InstancedMesh) es :
  buffer_synced m es -> buffer_len m (length es).
Proof.
  destruct m as [m|]; cbn; [|trivial]. intro H.
  rewrite <- (length_map fst), H, length_map. reflexivity.
Qed.

Lemma write_at_app {A} (pre post : list A) (o a : A) :
  write_at (pre ++ o :: post) (length pre) a = pre ++ a :: post.
Proof. induction pre as [|h pre IH]; cbn; [reflexivity|]. rewrite IH. reflexivity. Qed.

Lemma mesh_of_setBothMatrices g s i p sc :
  mesh_of g (setBothMatrices s i p sc) = setMatrixAt (mesh_of g s) i p sc.
Proof. destruct g; reflexivity. Qed.

(** A [forEach] body that writes the instance [index] of a mesh with the
    new position of the particle at [index]. *)
Definition writes_own_instance (g : bool)
    (body : nat -> Electron -> Sim -> Electron * Sim) : Prop :=
  forall i e s, exists sc,
    mesh_of g (snd (body i e s)) = setMatrixAt (mesh_of g s) i (position (fst (body i e s))) sc.

Lemma forEach_writes_none g body (Hb : writes_own_instance g body) :
  forall es i s, mesh_of g s = None -> mesh_of g (snd (forEach body i es s)) = None.
Proof.
  induction es as [|e es IH]; intros i s Hn; cbn [forEach]; [exact Hn|].
  destruct (Hb i e s) as (sc & Hw).
  destruct (body i e s) as [e' s1]. cbn in Hw. rewrite Hn in Hw.
  specialize (IH (S i) s1 Hw).
  destruct (forEach body (S i) es s1). exact IH.
Qed.

Lemma forEach_writes_some g body (Hb : writes_own_instance g body) :
  forall es pre olds post s m,
    mesh_of g s = Some m ->
    instanceMatrix m = pre ++ olds ++ post -> length olds = length es ->
    exists m' news,
      mesh_of g (snd (forEach body (length pre) es s)) = Some m' /\
      instanceMatrix m' = pre ++ news ++ post /\
      map fst news = map position (fst (forEach body (length pre) es s)).
Proof.
  induction es as [|e es IH]; intros pre olds post s m Hm Hbuf Hlen; cbn [forEach].
  - destruct olds; [|discriminate]. exists m, []. cbn. split; [exact Hm|].
    split; [exact Hbuf|reflexivity].
  - destruct olds as [|o olds]; [discriminate|]. cbn in Hlen.
    destruct (Hb (length pre) e s) as (sc & Hw).
    destruct (body (length pre) e s) as [e' s1]. cbn in Hw. rewrite Hm in Hw.
    cbn in Hw. rewrite Hbuf, <- app_comm_cons, write_at_app in Hw.
    destruct (IH (pre ++ [(position e', sc)]) olds post s1 _ Hw)
      as (m' & news & Hm' & Hbuf' & Hnews).
    + rewrite <- app_assoc. reflexivity.
    + lia.
    + rewrite length_app in Hm', Hnews. cbn in Hm', Hnews.
      rewrite PeanoNat.Nat.add_1_r in Hm', Hnews.
      destruct (forEach body (S (length pre)) es s1) as [es'' s2]. cbn in *.
      exists m', ((position e', sc) :: news).
      split; [exact Hm'|]. split.
      * rewrite Hbuf', <- app_assoc. reflexivity.
      * cbn. rewrite Hnews. reflexivity.
Qed.

(** From a buffer of the right length, a [forEach] over all particles
    leaves the buffer holding the new positions. *)
Lemma forEach_synced g body (Hb : writes_own_instance g body) es s :
  buffer_len (mesh_of g s) (length es) ->
  buffer_synced (mesh_of g (snd (forEach body 0 es s))) (fst (forEach body 0 es s)).
Proof.
  destruct (mesh_of g s) as [m|] eqn:Hm; cbn; intro Hl.
  - destruct (forEach_writes_some g body Hb es [] (instanceMatrix m) [] s m Hm
                (eq_sym (app_nil_r _)) Hl) as (m' & news & Hm' & Hbuf & Hnews).
    cbn in Hm', Hnews. rewrite Hm'. cbn. rewrite Hbuf, app_nil_r. exact Hnews.
  - rewrite (forEach_writes_none g body Hb es 0 s Hm). exact I.
Qed.

Lemma reset_body_writes random g : writes_own_instance g (reset_body random).
Proof. intros i e s. exists 1. destruct g; reflexivity. Qed.

Lemma frozen_body_writes sin time g : writes_own_instance g (frozen_body sin time).
Proof.
  intros i e s. unfold frozen_body. cbn.
  destruct (electronsMaterial s); exists (1 + sin (time * 2 + inject_Z (Z.of_nat (id e)) * 0.2) * 0.05);
    destruct g; reflexivity.
Qed.

Lemma flow_body_writes random sin c m dt t b g :
  writes_own_instance g (flow_body random sin c m dt t b).
Proof.
  intros i e s. flow_unfold; eexists; destruct g; reflexivity.
Qed.

Lemma init_loop_writes_some random g :
  forall n pre olds post s m,
    mesh_of g s = Some m ->
    instanceMatrix m = pre ++ olds ++ post -> length olds = n ->
    exists m' news,
      mesh_of g (snd (init_loop random (length pre) n s)) = Some m' /\
      instanceMatrix m' = pre ++ news ++ post /\
      map fst news = map position (fst (init_loop random (length pre) n s)).
Proof.
  induction n as [|n IH]; intros pre olds post s m Hm Hbuf Hlen; cbn [init_loop].
  - destruct olds; [|discriminate]. exists m, []. cbn. split; [exact Hm|].
    split; [exact Hbuf|reflexivity].
  - destruct olds as [|o olds]; [discriminate|]. cbn in Hlen.
    unfold Math_random. cbn -[init_loop].
    match goal with
    | |- context [init_loop random (S (length pre)) n ?s0] =>
        assert (Hw : mesh_of g s0 = Some (mkInstancedMesh
                   (pre ++ (sample random (rand_cursor s), 1) :: olds ++ post) (needsUpdate m)))
          by (rewrite mesh_of_setBothMatrices; cbn;
              replace (mesh_of g _) with (Some m) by (destruct g; exact (eq_sym Hm));
              cbn; rewrite Hbuf, <- app_comm_cons, write_at_app; reflexivity);
        destruct (IH (pre ++ [(sample random (rand_cursor s), 1)]) olds post s0 _ Hw)
          as (m' & news & Hm' & Hbuf' & Hnews);
        [rewrite <- app_assoc; reflexivity | lia |];
        rewrite length_app in Hm', Hnews; cbn in Hm', Hnews;
        rewrite PeanoNat.Nat.add_1_r in Hm', Hnews;
        destruct (init_loop random (S (length pre)) n s0) as [es'' s2]
    end.
    cbn in *. exists m', ((sample random (rand_cursor s), 1) :: news).
    split; [exact Hm'|]. split.
    + rewrite Hbuf', <- app_assoc. reflexivity.
    + cbn. rewrite Hnews. reflexivity.
Qed.

Lemma initializeElectrons_synced random n s :
  render_synced (snd (initializeElectrons random n s)).
Proof.
  assert (H : forall g, buffer_synced (mesh_of g (snd (initializeElectrons random n s)))
                                      (electrons (snd (initializeElectrons random n s)))).
  { intro g. unfold initializeElectrons.
    match goal with
    | |- context [init_loop random 0 n ?s1] =>
        assert (Hm : mesh_of g s1 = Some (newInstancedMesh n)) by (destruct g; reflexivity);
        destruct (init_loop_writes_some random g n [] (repeat (mkVector3 0 0 0, 1) n) []
                    s1 _ Hm (eq_sym (app_nil_r _)) (repeat_length _ _))
          as (m' & news & Hm' & Hbuf & Hnews);
        cbn [length] in Hm', Hnews;
        destruct (init_loop random 0 n s1) as [es s2]
    end.
    cbn in Hm', Hnews |- *.
    replace (mesh_of g _) with (markNeedsUpdate (mesh_of g s2)) by (destruct g; reflexivity).
    rewrite Hm'. cbn. rewrite Hbuf, app_nil_r. exact Hnews. }
  split; [exact (H false) | exact (H true)].
Qed.

(** The frozen body hands back each particle unchanged. *)
Lemma frozen_forEach_electrons sin time :
  forall es i s, fst (forEach (frozen_body sin time) i es s) = es.
Proof.
  induction es as [|e es IH]; intros i s; cbn [forEach]; [reflexivity|].
  destruct (frozen_body sin time i e s) as [e' s1] eqn:E.
  assert (e' = e) by (unfold frozen_body in E; destruct (electronsMaterial _);
                      inversion E; reflexivity). subst e'.
  specialize (IH (S i) s1). destruct (forEach _ (S i) es s1). cbn in *. congruence.
Qed.

Lemma buffer_synced_markNeedsUpdate m es :
  buffer_synced (markNeedsUpdate m) es <-> buffer_synced m es.
Proof. destruct m; reflexivity. Qed.

Lemma updateElectrons_synced_mesh random sin dt cv mv t s g :
  buffer_synced (mesh_of g s) (electrons s) ->
  buffer_synced (mesh_of g (updateElectrons random sin dt cv mv t s))
                (electrons (updateElectrons random sin dt cv mv t s)).
Proof.
  intro Hs.
  (* The frozen branch, from any synced state. *)
  assert (Hfrozen : forall s2, buffer_synced (mesh_of g s2) (electrons s2) ->
            buffer_synced (mesh_of g (markBothNeedsUpdate
                             (snd (forEach (frozen_body sin t) 0 (electrons s2) s2))))
                          (electrons (markBothNeedsUpdate
                             (snd (forEach (frozen_body sin t) 0 (electrons s2) s2))))).
  { intros s2 Hs2.
    pose proof (forEach_synced g _ (frozen_body_writes sin t g) (electrons s2) s2
                  (buffer_synced_len _ _ Hs2)) as H.
    rewrite frozen_forEach_electrons in H.
    destruct (frozen_forEach_fields sin t (electrons s2) 0 s2) as (He & _).
    replace (mesh_of g (markBothNeedsUpdate _))
      with (markNeedsUpdate (mesh_of g (snd (forEach (frozen_body sin t) 0 (electrons s2) s2))))
      by (destruct g; reflexivity).
    rewrite buffer_synced_markNeedsUpdate. cbn [electrons markBothNeedsUpdate set_meshes].
    rewrite He. exact H. }
  unfold updateElectrons. fold (sanitize cv) (sanitize mv).
  destruct (Qle_bool (sanitize cv) 0.1) eqn:Hc.
  - apply Hfrozen.
    destruct (Qltb 0.1 (lastCurrentVal s)); cbn [andb].
    + unfold resetElectronPositions.
      pose proof (forEach_synced g _ (reset_body_writes random g) (electrons s)
                    (set_lastCurrentVal s (sanitize cv)) (buffer_synced_len _ _ Hs)) as H.
      destruct (forEach (reset_body random) 0 _ _) as [es s1]. cbn in H |- *.
      destruct g; cbn in H |- *; rewrite buffer_synced_markNeedsUpdate; exact H.
    + destruct (_ && _); destruct g; exact Hs.
  - rewrite andb_false_r.
    match goal with
    | |- context [if negb (movementEnabled ?s3) then _ else _] =>
        assert (H3 : buffer_synced (mesh_of g s3) (electrons s3))
          by (repeat match goal with
                     | |- context [if ?b then _ else _] => destruct b
                     end; destruct g; exact Hs);
        set (s3' := s3) in *; clearbody s3'
    end.
    destruct (negb (movementEnabled s3')); [exact H3|].
    match goal with
    | |- context [forEach _ 0 (electrons ?s4) ?s4] =>
        assert (H4 : buffer_synced (mesh_of g s4) (electrons s4))
          by (destruct (electronsMaterial s3'); destruct g; exact H3);
        set (s4' := s4) in *; clearbody s4'
    end.
    pose proof (forEach_synced g _ (flow_body_writes random sin (sanitize cv) (sanitize mv)
                  (Math_min dt 0.033) t (Qltb 10 (sanitize mv) && Qltb 1 (sanitize cv)) g)
                  (electrons s4') s4' (buffer_synced_len _ _ H4)) as H.
    destruct (forEach _ 0 (electrons s4') s4') as [es s5]. cbn in H |- *.
    destruct g; cbn in H |- *; rewrite buffer_synced_markNeedsUpdate; exact H.
Qed.

Lemma render_synced_runCall random sin c s :
  render_synced s -> render_synced (runCall random sin c s).
Proof.
  intros [Hm Hg]. destruct c as [n|f|]; cbn [runCall].
  - apply initializeElectrons_synced.
  - split; [exact (updateElectrons_synced_mesh _ _ _ _ _ _ s false Hm)
           | exact (updateElectrons_synced_mesh _ _ _ _ _ _ s true Hg)].
  - split; exact I.
Qed.

(** ** Scene bookkeeping *)

Definition is_alloc (m : option InstancedMesh) : bool :=
  match m with Some _ => true | None => false end.

(** The scene holds a mesh of the simulation exactly once while the
    field refers to it, and not at all otherwise. *)
Definition scene_ok (s : Sim) : Prop :=
  count_occ SceneObj_eq_dec (scene s) ElectronsMeshObj
    = (if is_alloc (electronsMesh s) then 1 else 0)%nat /\
  count_occ SceneObj_eq_dec (scene s) ElectronsGlowObj
    = (if is_alloc (electronsGlow s) then 1 else 0)%nat.

Lemma count_occ_remove_same (l : list SceneObj) a :
  count_occ SceneObj_eq_dec (remove SceneObj_eq_dec a l) a = 0%nat.
Proof.
  induction l as [|b l IH]; cbn; [reflexivity|].
  destruct (SceneObj_eq_dec a b) as [->|Hne]; [exact IH|].
  cbn. destruct (SceneObj_eq_dec b a); [congruence|exact IH].
Qed.

Lemma count_occ_remove_other (l : list SceneObj) a b :
  a <> b -> count_occ SceneObj_eq_dec (remove SceneObj_eq_dec a l) b
            = count_occ SceneObj_eq_dec l b.
Proof.
  intro Hab. induction l as [|c l IH]; cbn; [reflexivity|].
  destruct (SceneObj_eq_dec a c) as [->|Hne].
  - destruct (SceneObj_eq_dec c b); [congruence|exact IH].
  - cbn. destruct (SceneObj_eq_dec c b); rewrite IH; reflexivity.
Qed.

Lemma dispose_scene_ok s : scene_ok s -> scene_ok (dispose s).
Proof.
  intros [Hm Hg]. unfold scene_ok, dispose. cbn [scene electronsMesh electronsGlow is_alloc].
  destruct (electronsMesh s) eqn:Em; destruct (electronsGlow s) eqn:Eg;
    cbn in Hm, Hg |- *;
    rewrite ?count_occ_remove_same, ?count_occ_remove_other by discriminate;
    rewrite ?count_occ_remove_same, ?count_occ_remove_other by discriminate;
    auto.
Qed.

Lemma writes_alloc g body (Hb : writes_own_instance g body) :
  forall i e s, is_alloc (mesh_of g (snd (body i e s))) = is_alloc (mesh_of g s).
Proof.
  intros i e s. destruct (Hb i e s) as (sc & ->). destruct (mesh_of g s); reflexivity.
Qed.

Lemma reset_body_scene random i e s : scene (snd (reset_body random i e s)) = scene s.
Proof. reflexivity. Qed.

Lemma frozen_body_scene sin time i e s : scene (snd (frozen_body sin time i e s)) = scene s.
Proof. destruct (frozen_body_state sin time i e s) as (m & g & mat & ->). reflexivity. Qed.

Lemma flow_body_scene random sin c m dt t b i e s :
  scene (snd (flow_body random sin c m dt t b i e s)) = scene s.
Proof. flow_unfold; reflexivity. Qed.

Lemma init_loop_scene random n :
  forall i s, scene (snd (init_loop random i n s)) = scene s.
Proof.
  induction n as [|n IH]; intros i s; [reflexivity|]. cbn [init_loop].
  unfold Math_random. cbn -[init_loop].
  match goal with
  | |- context [init_loop random (S i) n ?s0] =>
      specialize (IH (S i) s0); destruct (init_loop random (S i) n s0)
  end.
  cbn in *. exact IH.
Qed.

Lemma is_alloc_setMatrixAt m i p sc : is_alloc (setMatrixAt m i p sc) = is_alloc m.
Proof. destruct m; reflexivity. Qed.

Lemma is_alloc_markNeedsUpdate m : is_alloc (markNeedsUpdate m) = is_alloc m.
Proof. destruct m; reflexivity. Qed.

Lemma mesh_of_set_rand_cursor g s n : mesh_of g (set_rand_cursor s n) = mesh_of g s.
Proof. destruct g; reflexivity. Qed.

Lemma init_loop_alloc random n g :
  forall i s, is_alloc (mesh_of g (snd (init_loop random i n s))) = is_alloc (mesh_of g s).
Proof.
  induction n as [|n IH]; intros i s; [reflexivity|]. cbn [init_loop].
  unfold Math_random. cbn -[init_loop].
  match goal with
  | |- context [init_loop random (S i) n ?s0] =>
      specialize (IH (S i) s0); destruct (init_loop random (S i) n s0)
  end.
  cbn in *. rewrite IH, mesh_of_setBothMatrices, is_alloc_setMatrixAt,
    !mesh_of_set_rand_cursor. reflexivity.
Qed.

Lemma initializeElectrons_scene_ok random n s :
  scene_ok s -> scene_ok (snd (initializeElectrons random n s)).
Proof.
  intro Hs. pose proof (dispose_scene_ok s Hs) as [Hm Hg].
  assert (Hd : electronsMesh (dispose s) = None /\ electronsGlow (dispose s) = None)
    by (split; reflexivity).
  destruct Hd as [Hdm Hdg]. rewrite Hdm in Hm. rewrite Hdg in Hg. cbn in Hm, Hg.
  unfold initializeElectrons.
  match goal with
  | |- context [init_loop random 0 n ?s1] =>
      pose proof (init_loop_scene random n 0 s1) as Hsc;
      pose proof (init_loop_alloc random n false 0 s1) as Ham;
      pose proof (init_loop_alloc random n true 0 s1) as Hag;
      destruct (init_loop random 0 n s1) as [es s2]
  end.
  cbn in Hsc, Ham, Hag |- *. unfold scene_ok. cbn. rewrite Hsc.
  rewrite !count_occ_app. cbn. rewrite Hm, Hg.
  destruct (electronsMesh s2); destruct (electronsGlow s2); cbn in *;
    try discriminate; split; reflexivity.
Qed.

(** Repeats a field equation through every [forEach] of a goal, innermost
    first, given the body lemma tactic [tac]. *)
Ltac through_forEach f tac :=
  repeat match goal with
    | |- context [forEach ?b ?i ?es ?s0] =>
        lazymatch constr:((es, s0)) with
        | context [forEach _ _ _ _] => fail
        | _ => idtac
        end;
        let Hb := fresh "Hb" in
        assert (Hb : forall i' e s', f (snd (b i' e s')) = f s') by (intros; tac);
        pose proof (forEach_field f b Hb es i s0);
        clear Hb;
        destruct (forEach b i es s0) eqn:?; sim_proj
    end.

Lemma updateElectrons_scene random sin dt cv mv t s :
  scene (updateElectrons random sin dt cv mv t s) = scene s.
Proof.
  unfold updateElectrons, resetElectronPositions. fold (sanitize cv) (sanitize mv).
  repeat (match goal with
          | |- context [if ?b then _ else _] => destruct b
          | |- context [match electronsMaterial ?s0 with _ => _ end] =>
              destruct (electronsMaterial s0)
          end; sim_proj).
  all: through_forEach scene
         ltac:(first [ apply reset_body_scene | apply frozen_body_scene
                     | apply flow_body_scene ]).
  all: cbn [scene markBothNeedsUpdate set_meshes set_movementEnabled set_electrons
            set_lastCurrentVal resumeElectronMovement set_electronsMaterial] in *;
       congruence.
Qed.

Lemma updateElectrons_alloc random sin dt cv mv t s g :
  is_alloc (mesh_of g (updateElectrons random sin dt cv mv t s)) = is_alloc (mesh_of g s).
Proof.
  unfold updateElectrons, resetElectronPositions. fold (sanitize cv) (sanitize mv).
  repeat (match goal with
          | |- context [if ?b then _ else _] => destruct b
          | |- context [match electronsMaterial ?s0 with _ => _ end] =>
              destruct (electronsMaterial s0)
          end; sim_proj).
  all: through_forEach (fun s0 => is_alloc (mesh_of g s0))
         ltac:(apply writes_alloc;
               first [ apply reset_body_writes | apply frozen_body_writes
                     | apply flow_body_writes ]).
  all: destruct g; cbn [mesh_of] in *;
       cbn [markBothNeedsUpdate set_meshes set_movementEnabled set_electrons
            set_lastCurrentVal resumeElectronMovement set_electronsMaterial
            electronsMesh electronsGlow] in *;
       rewrite ?is_alloc_markNeedsUpdate in *; congruence.
Qed.

Lemma scene_ok_runCall random sin c s : scene_ok s -> scene_ok (runCall random sin c s).
Proof.
  intro Hs. destruct c as [n|f|]; cbn [runCall].
  - apply initializeElectrons_scene_ok, Hs.
  - destruct Hs as [Hm Hg]. unfold scene_ok.
    rewrite updateElectrons_scene.
    pose proof (updateElectrons_alloc random sin (frame_deltaTime f) (frame_current f)
                  (frame_magneticField f) (frame_time f) s false) as Am.
    pose proof (updateElectrons_alloc random sin (frame_deltaTime f) (frame_current f)
                  (frame_magneticField f) (frame_time f) s true) as Ag.
    cbn [mesh_of] in Am, Ag. rewrite Am, Ag. split; assumption.
  - apply dispose_scene_ok, Hs.
Qed.

(** ** Particle volume over sequences of calls *)

(** An update call of a caller: a non-negative deltaTime and a sanitised
    field of at most [F]. *)
Definition call_ok (F : Q) (c : Call) : Prop :=
  match c with
  | CallUpdate f => 0 <= frame_deltaTime f /\ sanitize (frame_magneticField f) <= F
  | _ => True
  end.

Lemma in_box_mono zl zl' p : zl <= zl' -> in_box zl p -> in_box zl' p.
Proof. unfold in_box. intros H (Hx & Hy & Hz). repeat split; lra. Qed.

Lemma zLimitOf_le (m c F : Q) :
  0 <= m -> m <= F -> zLimitOf m c <= 0.4 + (F / 100) * 0.1.
Proof.
  intros H0 H1. unfold zLimitOf.
  assert (EF : (F / 100) * 0.1 == F * (1 # 1000)) by field.
  assert (Em : (m / 100) * 0.1 == m * (1 # 1000)) by field.
  rewrite EF. destruct (_ && _); [rewrite Em|]; lra.
Qed.

Lemma spawn_in_box zl p : 0.2 <= zl -> in_spawn_volume p -> in_box zl p.
Proof. unfold in_spawn_volume, in_box. intros H (Hx & Hy & Hz). repeat split; lra. Qed.

Lemma init_loop_spawn random n :
  (forall k, 0 <= random k <= 1) ->
  forall i s, Forall (fun e => in_spawn_volume (position e)) (fst (init_loop random i n s)).
Proof.
  intro Hr. induction n as [|n IH]; intros i s; [constructor|]. cbn [init_loop].
  unfold Math_random. cbn -[init_loop].
  match goal with
  | |- context [init_loop random (S i) n ?s0] =>
      specialize (IH (S i) s0); destruct (init_loop random (S i) n s0)
  end.
  cbn in *. constructor; [|exact IH].
  exact (sample_in_spawn_volume random (rand_cursor s) Hr).
Qed.

Lemma updateElectrons_box random sin dt cv mv t s F :
  (forall k, 0 <= random k <= 1) -> 0 <= dt -> sanitize mv <= F ->
  Forall (fun e => in_box (0.4 + (F / 100) * 0.1) (position e)) (electrons s) ->
  Forall (fun e => in_box (0.4 + (F / 100) * 0.1) (position e))
         (electrons (updateElectrons random sin dt cv mv t s)).
Proof.
  intros Hr Hdt HF Hs.
  pose proof (sanitize_nonneg mv) as Hm0. pose proof (sanitize_nonneg cv) as Hc0.
  assert (HzF : 0.4 <= 0.4 + (F / 100) * 0.1)
    by (pose proof (widening_nonneg F ltac:(lra)); lra).
  destruct (updateElectrons_cases random sin dt cv mv t s)
    as [(_ & _ & ->) | [(_ & _ & ->) | (_ & s' & ->)]].
  - refine (Forall2_impl_Forall _ _ _ _ _ Hs).
    apply forEach_Forall2. intros i e s0 _.
    apply reset_body_in_box; [exact Hr | lra].
  - exact Hs.
  - refine (Forall2_impl_Forall _ _ _ _ _ Hs).
    apply forEach_Forall2. intros i e s0 (Hx & _).
    apply (in_box_mono (zLimitOf (sanitize mv) (sanitize cv))).
    + apply zLimitOf_le; assumption.
    + apply flow_body_in_box; try assumption; [apply Math_min_ge; lra | lra].
Qed.

Lemma runCall_box random sin F c s :
  (forall k, 0 <= random k <= 1) -> 0 <= F -> call_ok F c ->
  Forall (fun e => in_box (0.4 + (F / 100) * 0.1) (position e)) (electrons s) ->
  Forall (fun e => in_box (0.4 + (F / 100) * 0.1) (position e))
         (electrons (runCall random sin c s)).
Proof.
  intros Hr HF Hc Hs. destruct c as [n|f|]; cbn [runCall].
  - unfold initializeElectrons.
    match goal with
    | |- context [init_loop random 0 n ?s1] =>
        pose proof (init_loop_spawn random n Hr 0 s1) as Hsp;
        destruct (init_loop random 0 n s1) as [es s2]
    end.
    cbn in Hsp |- *. refine (Forall_impl _ _ Hsp). intros e He.
    apply spawn_in_box; [|exact He]. pose proof (widening_nonneg F HF). lra.
  - destruct Hc as [Hdt Hm]. apply updateElectrons_box; assumption.
  - constructor.
Qed.

(** ** Particle ids *)

(** The particles carry the ids [0, 1, ..., n-1] in order. *)
Definition ids_ok (s : Sim) : Prop := map id (electrons s) = seq 0 (length (electrons s)).

Lemma init_loop_ids random n :
  forall i s, map id (fst (init_loop random i n s)) = seq i n.
Proof.
  induction n as [|n IH]; intros i s; [reflexivity|]. cbn [init_loop].
  unfold Math_random. cbn -[init_loop].
  match goal with
  | |- context [init_loop random (S i) n ?s0] =>
      specialize (IH (S i) s0); destruct (init_loop random (S i) n s0)
  end.
  cbn in *. rewrite IH. reflexivity.
Qed.

Lemma Forall2_map_eq {A B} (f : A -> B) (l l' : list A) :
  Forall2 (fun a a' => f a' = f a) l l' -> map f l' = map f l.
Proof. induction 1; cbn; congruence. Qed.

Lemma updateElectrons_ids random sin dt cv mv t s :
  map id (electrons (updateElectrons random sin dt cv mv t s)) = map id (electrons s).
Proof.
  apply Forall2_map_eq.
  destruct (updateElectrons_cases random sin dt cv mv t s)
    as [(_ & _ & ->) | [(_ & _ & ->) | (_ & s' & ->)]].
  - apply forEach_Forall2. intros i e s0. reflexivity.
  - apply Forall2_refl. reflexivity.
  - apply forEach_Forall2. intros i e s0. flow_unfold; reflexivity.
Qed.

Lemma ids_ok_runCall random sin c s : ids_ok s -> ids_ok (runCall random sin c s).
Proof.
  unfold ids_ok. intro Hs. destruct c as [n|f|]; cbn [runCall].
  - unfold initializeElectrons.
    match goal with
    | |- context [init_loop random 0 n ?s1] =>
        pose proof (init_loop_ids random n 0 s1) as Hi;
        pose proof (init_loop_length random n 0 s1) as Hl;
        destruct (init_loop random 0 n s1) as [es s2]
    end.
    cbn in *. rewrite Hi, Hl. reflexivity.
  - rewrite updateElectrons_ids, updateElectrons_length. exact Hs.
  - reflexivity.
Qed.

(** ** Per-call behaviour *)

Lemma reset_body_movementEnabled random i e s :
  movementEnabled (snd (reset_body random i e s)) = movementEnabled s.
Proof. reflexivity. Qed.

Lemma frozen_body_movementEnabled sin time i e s :
  movementEnabled (snd (frozen_body sin time i e s)) = movementEnabled s.
Proof. destruct (frozen_body_state sin time i e s) as (m & g & mat & ->). reflexivity. Qed.

Lemma flow_body_movementEnabled random sin c m dt t b i e s :
  movementEnabled (snd (flow_body random sin c m dt t b i e s)) = movementEnabled s.
Proof. flow_unfold; reflexivity. Qed.

Lemma flow_body_material random sin c m dt t b i e s :
  electronsMaterial (snd (flow_body random sin c m dt t b i e s)) = electronsMaterial s.
Proof. flow_unfold; reflexivity. Qed.

Lemma reset_body_material random i e s :
  electronsMaterial (snd (reset_body random i e s)) = electronsMaterial s.
Proof. reflexivity. Qed.

(** The dimmed material of the near-zero-current branch. *)
Definition dim_material : MeshStandardMaterial :=
  mkMeshStandardMaterial (ColorRGB 0.1 0.1 0.5) 0.2.

Lemma frozen_forEach_material sin time es :
  forall i s,
    electronsMaterial (snd (forEach (frozen_body sin time) i es s))
    = match es with
      | [] => electronsMaterial s
      | _ => option_map (fun _ => dim_material) (electronsMaterial s)
      end.
Proof.
  induction es as [|e es IH]; intros i s; cbn [forEach]; [reflexivity|].
  destruct (frozen_body sin time i e s) as [e' s1] eqn:E.
  assert (Hs1 : electronsMaterial s1 = option_map (fun _ => dim_material) (electronsMaterial s)).
  { unfold frozen_body in E. cbn in E.
    destruct (electronsMaterial s) eqn:Em; inversion E; subst; cbn; rewrite ?Em; reflexivity. }
  specialize (IH (S i) s1).
  destruct (forEach _ (S i) es s1) as [es'' s2]. cbn in IH |- *. rewrite IH, Hs1.
  destruct es; [reflexivity|]. destruct (electronsMaterial s); reflexivity.
Qed.

Lemma clamp_compat (a b mn mn' mx mx' : Q) :
  a == b -> mn == mn' -> mx == mx' -> clamp a mn mx == clamp b mn' mx'.
Proof.
  intros Ha Hn Hx. unfold clamp, Math_max, Math_min.
  destruct (Qltb a mx) eqn:E1; destruct (Qltb b mx') eqn:E2;
    repeat match goal with
           | |- context [Qltb ?p ?q] => destruct (Qltb p q) eqn:?
           end; qbool; lra.
Qed.

Lemma updateElectrons_movementEnabled_eq random sin dt cv mv t s :
  movementEnabled (updateElectrons random sin dt cv mv t s)
  = if Qltb 0.1 (sanitize cv) then true
    else if Qltb 0.1 (lastCurrentVal s) then false
    else movementEnabled s.
Proof.
  unfold updateElectrons, resetElectronPositions. fold (sanitize cv) (sanitize mv).
  unfold Qltb.
  destruct (Qle_bool (sanitize cv) 0.1); destruct (Qle_bool (lastCurrentVal s) 0.1);
    cbn [negb andb].
  all: repeat (match goal with
          | |- context [if ?b then _ else _] =>
              lazymatch b with
              | context [Qle_bool _ _] => fail
              | _ => destruct b eqn:?
              end
          | |- context [match electronsMaterial ?s0 with _ => _ end] =>
              destruct (electronsMaterial s0)
          end; sim_proj).
  all: through_forEach movementEnabled
         ltac:(first [ apply reset_body_movementEnabled | apply frozen_body_movementEnabled
                     | apply flow_body_movementEnabled ]).
  all: cbn [markBothNeedsUpdate set_meshes set_movementEnabled set_electrons
            set_lastCurrentVal resumeElectronMovement set_electronsMaterial
            movementEnabled negb] in *;
       rewrite ?andb_true_r, ?negb_false_iff, ?negb_true_iff in *; congruence.
Qed.

Lemma match_nil_length {A B} (l : list A) (a b : B) :
  match l with [] => a | _ => b end = if Nat.eqb (length l) 0 then a else b.
Proof. destruct l; reflexivity. Qed.

(** The material of the flowing branch for sanitised current [c]. *)
Definition flow_material (c : Q) : MeshStandardMaterial :=
  mkMeshStandardMaterial (ColorRGB 0.1 0.3 0.8) (0.3 + 0.5 * (c / 5) * 0.5).

(** X6: after an update call the particle material, when allocated, is:
    with sanitised current at most 0.1, the dimmed material (colour
    (0.1, 0.1, 0.5), emissiveIntensity 0.2) if there is at least one
    particle and the material unchanged if there are none (the write sits
    inside the [forEach]); with sanitised current [c] above 0.1, colour
    (0.1, 0.3, 0.8) and emissiveIntensity [0.3 + 0.05 c]. *)
Lemma updateElectrons_material_eq random sin dt cv mv t s :
  electronsMaterial (updateElectrons random sin dt cv mv t s)
  = if Qle_bool (sanitize cv) 0.1 then
      match electrons s with
      | [] => electronsMaterial s
      | _ => option_map (fun _ => dim_material) (electronsMaterial s)
      end
    else option_map (fun _ => flow_material (sanitize cv)) (electronsMaterial s).
Proof.
  unfold updateElectrons. fold (sanitize cv) (sanitize mv).
  destruct (Qle_bool (sanitize cv) 0.1) eqn:Hc.
  - cbn [electronsMaterial markBothNeedsUpdate set_meshes].
    rewrite frozen_forEach_material, !match_nil_length.
    destruct (Qltb 0.1 (lastCurrentVal s)); cbn [andb].
    + unfold resetElectronPositions.
      pose proof (forEach_length (reset_body random) (electrons s) 0
                    (set_lastCurrentVal s (sanitize cv))) as Hl.
      pose proof (forEach_field electronsMaterial (reset_body random)
                    (reset_body_material random) (electrons s) 0
                    (set_lastCurrentVal s (sanitize cv))) as Hm.
      destruct (forEach (reset_body random) 0 _ _) as [es s1]. cbn in Hl, Hm |- *.
      rewrite Hl, Hm. reflexivity.
    + destruct (_ && _); reflexivity.
  - rewrite andb_false_r.
    assert (Hc' : Qltb 0.1 (sanitize cv) = true) by (apply Qltb_true; qbool; lra).
    rewrite Hc', !andb_true_r.
    match goal with
    | |- context [if negb (movementEnabled ?s3) then _ else _] =>
        assert (H3 : movementEnabled s3 = true /\ electronsMaterial s3 = electronsMaterial s)
          by (repeat match goal with
                     | |- context [if ?b then _ else _] => destruct b eqn:?
                     end; cbn in *; rewrite ?andb_true_r, ?negb_false_iff in *;
                     split; congruence);
        set (s3' := s3) in *; clearbody s3'
    end.
    destruct H3 as [Hme Hmat]. rewrite Hme. cbn [negb].
    destruct (electronsMaterial s3') eqn:E3.
    + match goal with
      | |- context [forEach ?b 0 ?es ?s4] =>
          pose proof (forEach_field electronsMaterial b
                        (flow_body_material _ _ _ _ _ _ _) es 0 s4) as Hm;
          destruct (forEach b 0 es s4) as [es' s5]
      end.
      cbn in Hm |- *. rewrite Hm, <- Hmat. reflexivity.
    + match goal with
      | |- context [forEach ?b 0 ?es ?s4] =>
          pose proof (forEach_field electronsMaterial b
                        (flow_body_material _ _ _ _ _ _ _) es 0 s4) as Hm;
          destruct (forEach b 0 es s4) as [es' s5]
      end.
      cbn in Hm |- *. rewrite Hm, <- Hmat, E3. reflexivity.
Qed.

Lemma flow_body_lateral random sin c m dt t i e s :
  let e' := fst (flow_body random sin c m dt t (Qltb 10 m && Qltb 1 c) i e s) in
  -2.5 <= x (position e) + x (velocity e') * dt * 1.5 ->
  z (position e') == clamp (z (position e) +
                            (if Qltb 0.1 m then - (c * m / 2500) * dt * 1.2 else 0))
                           (- zLimitOf m c) (zLimitOf m c).
Proof.
  unfold zLimitOf. flow_unfold; intro Hx; qbool; try lra.
  all: apply clamp_compat; unfold FORCE_SCALE; [field | reflexivity | reflexivity].
Qed.

Lemma flow_body_reentry random sin c m dt t i e s :
  (forall k, 0 <= random k <= 1) -> 0 <= m ->
  let e' := fst (flow_body random sin c m dt t (Qltb 10 m && Qltb 1 c) i e s) in
  x (position e) + x (velocity e') * dt * 1.5 < -2.5 ->
  x (position e') = 2.5 /\ -0.1 <= y (position e') <= 0.1 /\
  (if Qltb 10 m && Qltb 1 c then -0.4 <= z (position e') <= -0.2
   else -0.2 <= z (position e') <= 0.2).
Proof.
  intros Hr Hm.
  pose proof (Hr (S (rand_cursor s))). pose proof (Hr (S (S (rand_cursor s)))).
  pose proof (widening_nonneg m Hm).
  flow_unfold; intro Hx; qbool; try lra.
  all: split; [reflexivity|].
  all: match goal with
       | |- context [clamp ?v (-0.2) 0.2] =>
           assert (Ey : clamp v (-0.2) 0.2 == v) by (apply clamp_id; lra)
       end;
       match goal with
       | |- context [clamp ?v ?lo ?hi] =>
           lazymatch lo with (-0.2) => fail | _ => idtac end;
           assert (Ez : clamp v lo hi == v) by (apply clamp_id; lra)
       end;
       rewrite Ey, Ez; lra.
Qed.

Lemma init_loop_lastCurrentVal random n :
  forall i s, lastCurrentVal (snd (init_loop random i n s)) = lastCurrentVal s.
Proof.
  induction n as [|n IH]; intros i s; [reflexivity|]. cbn [init_loop].
  unfold Math_random. cbn -[init_loop].
  match goal with
  | |- context [init_loop random (S i) n ?s0] =>
      specialize (IH (S i) s0); destruct (init_loop random (S i) n s0)
  end.
  cbn in *. exact IH.
Qed.

Lemma initializeElectrons_flags random n s :
  movementEnabled (snd (initializeElectrons random n s)) = true /\
  lastCurrentVal (snd (initializeElectrons random n s)) = lastCurrentVal s.
Proof.
  unfold initializeElectrons.
  match goal with
  | |- context [init_loop random 0 n ?s1] =>
      pose proof (init_loop_lastCurrentVal random n 0 s1) as Hl;
      destruct (init_loop random 0 n s1) as [es s2]
  end.
  cbn in *. split; [reflexivity | exact Hl].
Qed.

Lemma runCalls_box_from random sin F :
  (forall k, 0 <= random k <= 1) -> 0 <= F ->
  forall cs s, Forall (call_ok F) cs ->
  Forall (fun e => in_box (0.4 + (F / 100) * 0.1) (position e)) (electrons s) ->
  Forall (fun e => in_box (0.4 + (F / 100) * 0.1) (position e))
         (electrons (runCalls random sin cs s)).
Proof.
  intros Hr HF cs. induction cs as [|c cs IH]; intros s Hcs Hs; [exact Hs|].
  inversion Hcs as [|c' cs' Hc Hcs']; subst. cbn [runCalls].
  apply IH; [exact Hcs'|]. apply runCall_box; assumption.
Qed.

Lemma movement_quiet_runCall random sin c s :
  (movementEnabled s = false -> lastCurrentVal s <= 0.1) ->
  movementEnabled (runCall random sin c s) = false ->
  lastCurrentVal (runCall random sin c s) <= 0.1.
Proof.
  intros Hs. destruct c as [n|f|]; cbn [runCall].
  - destruct (initializeElectrons_flags random n s) as [-> _]. discriminate.
  - rewrite updateElectrons_movementEnabled_eq, updateElectrons_lastCurrentVal.
    destruct (Qltb 0.1 (sanitize (frame_current f))) eqn:E; [discriminate|].
    intros _. apply Qltb_false in E. exact E.
  - exact Hs.
Qed.

(** A sequence of calls used by the witnesses below: a batch of three,
    two update calls at full field, a dispose, a batch of two and an
    update call that freezes it. *)
Definition demo_calls : list Call :=
  [CallInit 3; CallUpdate (mkFrame 0.016 (JNum 5) (JNum 100) 0);
   CallUpdate (mkFrame 1 (JNum 2) (JNum 50) 1); CallDispose; CallInit 2;
   CallUpdate (mkFrame 0.016 (JNum 5) (JNum 100) 2);
   CallUpdate (mkFrame 0.016 (JNum 0) (JNum 100) 3)].

(** ** Properties of the simulation object *)

(** X1: after any sequence of [initializeElectrons], [updateElectrons] and
    [dispose] calls on a new [ElectronSimulation], each instanced mesh the
    object holds (particles and glow) has, at instance [i], the position
    of the [i]-th particle of [this.electrons]. *)
Theorem runCalls_render_synced random sin cs k :
  render_synced (runCalls random sin cs (newElectronSimulation k)).
Proof.
  apply (runCalls_invariant render_synced random sin (render_synced_runCall random sin)).
  split; exact I.
Qed.

(** X2: after any sequence of calls on a new [ElectronSimulation], the
    scene contains the particle mesh exactly once while [this.electronsMesh]
    is set and not at all otherwise, and likewise for the glow mesh: a
    repeated [initializeElectrons] never leaves an old mesh in the scene. *)
Theorem runCalls_scene_ok random sin cs k :
  scene_ok (runCalls random sin cs (newElectronSimulation k)).
Proof.
  apply (runCalls_invariant scene_ok random sin (scene_ok_runCall random sin)).
  split; reflexivity.
Qed.

(** X3: with [Math.random] values in [[0, 1]], if every update call of a
    sequence on a new [ElectronSimulation] has a non-negative deltaTime and
    a sanitised magnetic field of at most [F], every particle stays within
    [[-2.5, 2.5] x [-0.2, 0.2] x [-(0.4 + F/1000), 0.4 + F/1000]]. *)
Theorem runCalls_in_box random sin F cs k :
  (forall n, 0 <= random n <= 1) -> 0 <= F -> Forall (call_ok F) cs ->
  Forall (fun e => in_box (0.4 + (F / 100) * 0.1) (position e))
         (electrons (runCalls random sin cs (newElectronSimulation k))).
Proof.
  intros Hr HF Hcs. apply runCalls_box_from; try assumption. constructor.
Qed.

Lemma runCalls_in_box_witness :
  (forall n, 0 <= rand_const 0.5 n <= 1) /\ 0 <= 100 /\ Forall (call_ok 100) demo_calls /\
  Forall (fun e => in_box (0.4 + (100 / 100) * 0.1) (position e))
         (electrons (runCalls (rand_const 0.5) sin_zero demo_calls (newElectronSimulation 0))).
Proof.
  assert (Hr : forall n, 0 <= rand_const 0.5 n <= 1) by (intro n; unfold rand_const; lra).
  assert (HF : 0 <= 100) by lra.
  assert (Hc : Forall (call_ok 100) demo_calls).
  { unfold demo_calls.
    repeat constructor; cbn [frame_deltaTime frame_magneticField];
      apply Qle_bool_imp_le; vm_compute; reflexivity. }
  split; [exact Hr|]. split; [exact HF|]. split; [exact Hc|].
  exact (runCalls_in_box (rand_const 0.5) sin_zero 100 demo_calls 0 Hr HF Hc).
Defined.

(** X4: after any sequence of calls on a new [ElectronSimulation], the
    particles of [this.electrons] carry the ids [0, 1, ..., n-1] in order. *)
Theorem runCalls_ids random sin cs k :
  ids_ok (runCalls random sin cs (newElectronSimulation k)).
Proof.
  apply (runCalls_invariant ids_ok random sin (ids_ok_runCall random sin)).
  reflexivity.
Qed.

(** X5: after any sequence of calls on a new [ElectronSimulation], movement
    is disabled only while the stored previous current is at most 0.1: an
    update call with current above 0.1 re-enables it, and
    [initializeElectrons] enables it. *)
Theorem runCalls_movement_disabled_quiet random sin cs k :
  movementEnabled (runCalls random sin cs (newElectronSimulation k)) = false ->
  lastCurrentVal (runCalls random sin cs (newElectronSimulation k)) <= 0.1.
Proof.
  apply (runCalls_invariant (fun s => movementEnabled s = false -> lastCurrentVal s <= 0.1)
           random sin (movement_quiet_runCall random sin)).
  discriminate.
Qed.

Lemma runCalls_movement_disabled_quiet_witness :
  movementEnabled (runCalls (rand_const 0.5) sin_zero demo_calls (newElectronSimulation 0))
    = false /\
  lastCurrentVal (runCalls (rand_const 0.5) sin_zero demo_calls (newElectronSimulation 0))
    <= 0.1.
Proof.
  assert (H : movementEnabled (runCalls (rand_const 0.5) sin_zero demo_calls
                                        (newElectronSimulation 0)) = false)
    by (vm_compute; reflexivity).
  split; [exact H|].
  exact (runCalls_movement_disabled_quiet (rand_const 0.5) sin_zero demo_calls 0 H).
Defined.

(** X7: in an update call with sanitised current [c] above 0.1 and
    sanitised field [m], a particle that does not wrap around (its drift
    position after the advance is at least -2.5) has the lateral position
    [z + (-(c m / 2500) dt' 1.2)] (no push when [m <= 0.1]), clamped to
    [[-zLimit, zLimit]], where [dt' = min(deltaTime, 0.033)]: the Lorentz
    push always points to negative z. *)
Theorem updateElectrons_lateral random sin dt cv mv t s :
  0.1 < sanitize cv ->
  Forall2 (fun e e' =>
      -2.5 <= x (position e) + x (velocity e') * Math_min dt 0.033 * 1.5 ->
      z (position e') ==
      clamp (z (position e) +
             (if Qltb 0.1 (sanitize mv)
              then - (sanitize cv * sanitize mv / 2500) * Math_min dt 0.033 * 1.2 else 0))
            (- zLimitOf (sanitize mv) (sanitize cv)) (zLimitOf (sanitize mv) (sanitize cv)))
    (electrons s) (electrons (updateElectrons random sin dt cv mv t s)).
Proof.
  intro Hc.
  destruct (updateElectrons_cases random sin dt cv mv t s)
    as [(Hc' & _) | [(Hc' & _) | (_ & s' & ->)]]; [qbool; lra | qbool; lra |].
  apply forEach_Forall2. intros i e s0. apply flow_body_lateral.
Qed.

Lemma updateElectrons_lateral_witness :
  0.1 < sanitize (JNum 5) /\
  Forall2 (fun e e' =>
      -2.5 <= x (position e) + x (velocity e') * Math_min 0.016 0.033 * 1.5 ->
      z (position e') ==
      clamp (z (position e) +
             (if Qltb 0.1 (sanitize (JNum 50))
              then - (sanitize (JNum 5) * sanitize (JNum 50) / 2500)
                     * Math_min 0.016 0.033 * 1.2 else 0))
            (- zLimitOf (sanitize (JNum 50)) (sanitize (JNum 5)))
            (zLimitOf (sanitize (JNum 50)) (sanitize (JNum 5))))
    (electrons (fresh_batch (rand_const 0.5) 2))
    (electrons (updateElectrons (rand_const 0.5) sin_zero 0.016 (JNum 5) (JNum 50) 0
                                (fresh_batch (rand_const 0.5) 2))).
Proof.
  assert (H : 0.1 < sanitize (JNum 5)) by (vm_compute; reflexivity).
  split; [exact H|].
  exact (updateElectrons_lateral (rand_const 0.5) sin_zero 0.016 (JNum 5) (JNum 50) 0
           (fresh_batch (rand_const 0.5) 2) H).
Defined.

(** X8: in an update call with sanitised current above 0.1 and
    [Math.random] values in [[0, 1]], a particle that wraps around (its
    drift position after the advance is below -2.5) re-enters at x = 2.5
    with a vertical position in [[-0.1, 0.1]] and a lateral position in
    [[-0.4, -0.2]] when accumulation is active (sanitised field above 10
    and current above 1), in [[-0.2, 0.2]] otherwise. *)
Theorem updateElectrons_reentry random sin dt cv mv t s :
  (forall k, 0 <= random k <= 1) -> 0.1 < sanitize cv ->
  Forall2 (fun e e' =>
      x (position e) + x (velocity e') * Math_min dt 0.033 * 1.5 < -2.5 ->
      x (position e') = 2.5 /\ -0.1 <= y (position e') <= 0.1 /\
      (if Qltb 10 (sanitize mv) && Qltb 1 (sanitize cv)
       then -0.4 <= z (position e') <= -0.2
       else -0.2 <= z (position e') <= 0.2))
    (electrons s) (electrons (updateElectrons random sin dt cv mv t s)).
Proof.
  intros Hr Hc.
  destruct (updateElectrons_cases random sin dt cv mv t s)
    as [(Hc' & _) | [(Hc' & _) | (_ & s' & ->)]]; [qbool; lra | qbool; lra |].
  apply forEach_Forall2. intros i e s0.
  apply flow_body_reentry; [exact Hr | apply sanitize_nonneg].
Qed.

(** A particle drawn at x = -2 after ten flowing frames at current 10
    (velocity -1, advance 0.0495 per frame): it is at x = -2.495, so the
    next such frame takes it below -2.5. *)
Definition near_edge_batch : Sim :=
  runFrames (rand_const 0) sin_zero (repeat (mkFrame 0.033 (JNum 10) (JNum 50) 0) 10)
            (fresh_batch (rand_const 0) 1).

(** Witness of [updateElectrons_reentry]: the particle of [near_edge_batch]
    wraps around in the call (current 10, field 50: accumulation active). *)
Lemma updateElectrons_reentry_witness :
  (forall k, 0 <= rand_const 0.5 k <= 1) /\ 0.1 < sanitize (JNum 10) /\
  Forall2 (fun e e' => x (position e) + x (velocity e') * Math_min 0.033 0.033 * 1.5 < -2.5)
    (electrons near_edge_batch)
    (electrons (updateElectrons (rand_const 0.5) sin_zero 0.033 (JNum 10) (JNum 50) 1
                                near_edge_batch)) /\
  Forall2 (fun e e' =>
      x (position e) + x (velocity e') * Math_min 0.033 0.033 * 1.5 < -2.5 ->
      x (position e') = 2.5 /\ -0.1 <= y (position e') <= 0.1 /\
      (if Qltb 10 (sanitize (JNum 50)) && Qltb 1 (sanitize (JNum 10))
       then -0.4 <= z (position e') <= -0.2
       else -0.2 <= z (position e') <= 0.2))
    (electrons near_edge_batch)
    (electrons (updateElectrons (rand_const 0.5) sin_zero 0.033 (JNum 10) (JNum 50) 1
                                near_edge_batch)).
Proof.
  assert (Hr : forall k, 0 <= rand_const 0.5 k <= 1) by (intro k; unfold rand_const; lra).
  assert (H : 0.1 < sanitize (JNum 10)) by (vm_compute; reflexivity).
  split; [exact Hr|]. split; [exact H|]. split.
  - vm_compute. repeat constructor.
  - exact (updateElectrons_reentry (rand_const 0.5) sin_zero 0.033 (JNum 10) (JNum 50) 1
             near_edge_batch Hr H).
Defined.

(** ** Current arrows ([visualization.ts]) *)

(** The fields of a [THREE.ArrowHelper] and of a small arrow [THREE.Mesh]
    that [updateCurrentArrows] reads or writes, colours apart (their
    [setHSL] writes go to fields nothing here reads). *)
Record ArrowHelper : Type := mkArrowHelper { ah_visible : bool; ah_scale : Vector3 }.

Record ArrowMesh : Type := mkArrowMesh {
  am_visible : bool;
  am_scale : Vector3;
  am_position : Vector3;
  am_emissiveIntensity : Q
}.

(** A loop index as a JavaScript number. *)
Definition Qnat (n : nat) : Q := inject_Z (Z.of_nat n).

(** [a > b] and [a <= b] on a JavaScript number: false for NaN. *)
Definition js_gt (a : JSNum) (b : Q) : bool :=
  match a with JNaN => false | JNum q => Qltb b q end.
Definition js_le (a : JSNum) (b : Q) : bool :=
  match a with JNaN => false | JNum q => Qle_bool q b end.

Definition set_ah_visible (a : ArrowHelper) (v : bool) : ArrowHelper :=
  mkArrowHelper v (ah_scale a).
Definition set_am_visible (a : ArrowMesh) (v : bool) : ArrowMesh :=
  mkArrowMesh v (am_scale a) (am_position a) (am_emissiveIntensity a).

(** The loop of [createCurrentArrows] for [i] from [i] to [i + n - 1]:
    a hidden arrow at [(-2 + i * arrowSpacing, 0 + 0.05, 0 + 0.6)] with the
    material's emissiveIntensity 0.2 and the default scale. *)
Fixpoint small_arrows_loop (i n : nat) : list ArrowMesh :=
  match n with
  | O => []
  | S n' =>
      mkArrowMesh false (mkVector3 1 1 1) (mkVector3 (-2 + Qnat i * 1.0) (0 + 0.05) (0 + 0.6)) 0.2
        :: small_arrows_loop (S i) n'
  end.

(** [createCurrentArrows(scene)]: the main arrow (visible, default scale)
    and [arrowCount = 6] small arrows (the [scene.add] calls are not
    modelled). *)
Definition createCurrentArrows : ArrowHelper * list ArrowMesh :=
  (mkArrowHelper true (mkVector3 1 1 1), small_arrows_loop 0 6).

(** [arrows.forEach((arrow, index) => body)] with a body that updates the
    arrow in place. *)
Fixpoint forEach_arrows (f : nat -> ArrowMesh -> ArrowMesh) (i : nat) (l : list ArrowMesh)
  : list ArrowMesh :=
  match l with
  | [] => []
  | a :: l' => f i a :: forEach_arrows f (S i) l'
  end.

Section CurrentArrows.

(** [Math.sin], and the [performance.now()] reading taken for the arrow of
    each index. *)
Variable sin : Q -> Q.
Variable performance_now : nat -> Q.

(** The body of [smallArrows.forEach] for a current [current > 0.01]. *)
Definition update_small_arrow (current deltaTime visibleArrows : Q) (index : nat)
    (arrow : ArrowMesh) : ArrowMesh :=
  let arrow1 := set_am_visible arrow (Qltb (Qnat index) visibleArrows) in
  if am_visible arrow1 then
    let pulseScale := 1 + sin (performance_now index * 0.005 + Qnat index * 0.5) * 0.08 in
    let baseScale := 0.7 + (current / 10) * 0.6 in
    let sc := baseScale * pulseScale in
    let p1 := set_x (am_position arrow1)
                    (x (am_position arrow1) + (0.02 + current * 0.01) * deltaTime) in
    let p2 := if Qltb 2.5 (x p1) then set_x p1 (-2.5 + Qnat (Nat.modulo index 3) * 0.2)
              else p1 in
    mkArrowMesh (am_visible arrow1) (mkVector3 sc sc sc) p2 (0.2 + current * 0.05)
  else arrow1.

(** [updateCurrentArrows(mainArrow, smallArrows, current, deltaTime)]. *)
Definition updateCurrentArrows (mainArrow : ArrowHelper) (smallArrows : list ArrowMesh)
    (current : JSNum) (deltaTime : Q) : ArrowHelper * list ArrowMesh :=
  let main1 := set_ah_visible mainArrow (js_gt current 0.01) in
  let main2 := match current with
               | JNum c =>
                   if Qltb 0.01 c then
                     let arrowScale := 0.7 + (c / 10) * 0.6 in
                     mkArrowHelper (ah_visible main1) (mkVector3 arrowScale arrowScale arrowScale)
                   else main1
               | JNaN => main1
               end in
  match smallArrows with
  | [] => (main2, smallArrows)
  | _ =>
      if js_le current 0.01 then (main2, map (fun a => set_am_visible a false) smallArrows)
      else match current with
           | JNum c =>
               let visibleArrows := Math_max 1 (inject_Z (Qfloor (c / 2))) in
               (main2, forEach_arrows (update_small_arrow c deltaTime visibleArrows) 0 smallArrows)
           | JNaN =>
               (* [visibleArrows] is NaN and [index < NaN] is false: every
                  arrow is hidden and nothing else is written *)
               (main2, map (fun a => set_am_visible a false) smallArrows)
           end
  end.

End CurrentArrows.

(** One call of [updateCurrentArrows] in a sequence: its current, its
    deltaTime and the [performance.now()] readings it takes. *)
Record ArrowFrame : Type := mkArrowFrame {
  af_current : JSNum;
  af_deltaTime : Q;
  af_now : nat -> Q
}.

Fixpoint runArrowFrames (sin : Q -> Q) (fs : list ArrowFrame) (st : ArrowHelper * list ArrowMesh)
  : ArrowHelper * list ArrowMesh :=
  match fs with
  | [] => st
  | f :: fs' =>
      runArrowFrames sin fs'
        (updateCurrentArrows sin (af_now f) (fst st) (snd st) (af_current f) (af_deltaTime f))
  end.

Lemma Qltb_inject_Z (a b : Z) : Qltb (inject_Z a) (inject_Z b) = Z.ltb a b.
Proof.
  unfold Qltb, Qle_bool, inject_Z. cbn [Qnum Qden]. rewrite !Z.mul_1_r.
  rewrite Z.ltb_antisym. reflexivity.
Qed.

Lemma Math_max_inject_Z (a b : Z) : Math_max (inject_Z a) (inject_Z b) = inject_Z (Z.max a b).
Proof.
  unfold Math_max. rewrite Qltb_inject_Z.
  destruct (Z.ltb_spec a b); f_equal; lia.
Qed.

Lemma Qltb_Qnat (j : nat) (K : Z) :
  (0 <= K)%Z -> Qltb (Qnat j) (inject_Z K) = Nat.ltb j (Z.to_nat K).
Proof.
  intro HK. unfold Qnat. rewrite Qltb_inject_Z.
  destruct (Z.ltb_spec (Z.of_nat j) K); destruct (Nat.ltb_spec0 j (Z.to_nat K)); lia.
Qed.

Lemma seq_ltb_prefix (K : nat) :
  forall n i, map (fun j => Nat.ltb j K) (seq i n)
              = repeat true (Nat.min n (K - i)) ++ repeat false (n - (K - i)).
Proof.
  induction n as [|n IH]; intro i; [reflexivity|]. cbn [seq map].
  destruct (Nat.ltb_spec0 i K).
  - replace (K - i)%nat with (S (K - S i)) by lia. cbn [Nat.min repeat app Nat.sub].
    f_equal. apply IH.
  - replace (K - i)%nat with 0%nat by lia. cbn [Nat.min repeat app Nat.sub].
    rewrite IH. replace (K - S i)%nat with 0%nat by lia.
    rewrite Nat.min_0_r, Nat.sub_0_r. reflexivity.
Qed.

Lemma forEach_arrows_visible sin now c dt v :
  forall l i, map am_visible (forEach_arrows (update_small_arrow sin now c dt v) i l)
              = map (fun j => Qltb (Qnat j) v) (seq i (length l)).
Proof.
  induction l as [|a l IH]; intro i; [reflexivity|]. cbn [forEach_arrows map seq length].
  rewrite IH. f_equal. unfold update_small_arrow. cbn [am_visible set_am_visible].
  destruct (Qltb (Qnat i) v); reflexivity.
Qed.

Lemma map_set_invisible (l : list ArrowMesh) :
  map am_visible (map (fun a => set_am_visible a false) l) = repeat false (length l).
Proof. induction l as [|a l IH]; cbn; [reflexivity | rewrite IH; reflexivity]. Qed.

Lemma visibleArrows_eq (c : Q) :
  Math_max 1 (inject_Z (Qfloor (c / 2))) = inject_Z (Z.max 1 (Qfloor (c / 2))).
Proof. apply (Math_max_inject_Z 1). Qed.

Lemma Qnat_mod3_le (i : nat) : Qnat (Nat.modulo i 3) <= 2.
Proof.
  unfold Qnat. change 2 with (inject_Z 2). rewrite <- Zle_Qle.
  pose proof (Nat.mod_upper_bound i 3 ltac:(lia)). lia.
Qed.

Definition arrow_moved (a a' : ArrowMesh) : Prop :=
  if am_visible a' then
    x (am_position a') <= 2.5 /\ y (am_position a') = y (am_position a) /\
    z (am_position a') = z (am_position a)
  else
    am_position a' = am_position a /\ am_scale a' = am_scale a /\
    am_emissiveIntensity a' = am_emissiveIntensity a.

Lemma update_small_arrow_moved sin now c dt v i a :
  arrow_moved a (update_small_arrow sin now c dt v i a).
Proof.
  unfold arrow_moved, update_small_arrow. cbn [am_visible set_am_visible am_position].
  destruct (Qltb (Qnat i) v); cbn [am_visible am_position am_scale am_emissiveIntensity].
  - destruct (Qltb 2.5 _) eqn:E; cbn [x y z set_x am_position] in *; qbool.
    + pose proof (Qnat_mod3_le i). set (q := Qnat (i mod 3)) in *. clearbody q.
      repeat split; try reflexivity; lra.
    + repeat split; try reflexivity; lra.
  - repeat split.
Qed.

Lemma forEach_arrows_moved sin now c dt v :
  forall l i, Forall2 arrow_moved l (forEach_arrows (update_small_arrow sin now c dt v) i l).
Proof.
  induction l as [|a l IH]; intro i; constructor; [apply update_small_arrow_moved | apply IH].
Qed.

Lemma map_invisible_moved (l : list ArrowMesh) :
  Forall2 arrow_moved l (map (fun a => set_am_visible a false) l).
Proof.
  induction l as [|a l IH]; constructor; [|exact IH].
  unfold arrow_moved. cbn. repeat split.
Qed.

Lemma forEach_arrows_nth f :
  forall l i j a, nth_error l j = Some a ->
  nth_error (forEach_arrows f i l) j = Some (f (i + j)%nat a).
Proof.
  induction l as [|b l IH]; intros i j a H; [destruct j; discriminate|].
  destruct j as [|j]; cbn in H |- *.
  - injection H as ->. rewrite Nat.add_0_r. reflexivity.
  - rewrite (IH (S i) j a H). f_equal. f_equal. lia.
Qed.

Lemma set_am_visible_same (a : ArrowMesh) : am_visible a = false -> set_am_visible a false = a.
Proof. destruct a; cbn. intros ->. reflexivity. Qed.

(** The current bound under which the arrow of index 5 stays hidden. *)
Definition below12 (f : ArrowFrame) : Prop :=
  match af_current f with JNum c => c < 12 | JNaN => True end.

Lemma sixth_arrow_step sin f main sa a :
  below12 f -> nth_error sa 5 = Some a -> am_visible a = false ->
  nth_error (snd (updateCurrentArrows sin (af_now f) main sa (af_current f) (af_deltaTime f))) 5
  = Some a.
Proof.
  intros Hf Ha Hv. unfold below12 in Hf.
  destruct sa as [|b sa']; [discriminate Ha|].
  unfold updateCurrentArrows. destruct (af_current f) as [|c]; cbn [js_le snd].
  - rewrite (map_nth_error _ _ _ Ha). rewrite set_am_visible_same by exact Hv. reflexivity.
  - destruct (Qle_bool c 0.01); cbn [snd].
    + rewrite (map_nth_error _ _ _ Ha). rewrite set_am_visible_same by exact Hv. reflexivity.
    + rewrite (forEach_arrows_nth _ _ 0 5 a Ha). cbn [Nat.add].
      unfold update_small_arrow.
      assert (Hfl : (Qfloor (c / 2) <= 5)%Z).
      { assert (Hlt : inject_Z (Qfloor (c / 2)) < inject_Z 6).
        { pose proof (Qfloor_le (c / 2)) as Hfl.
          set (q := inject_Z (Qfloor (c / 2))) in *. clearbody q.
          assert (E2 : c / 2 == c * (1 # 2)) by field. rewrite E2 in Hfl.
          change (inject_Z 6) with 6. lra. }
        rewrite <- Zlt_Qlt in Hlt. lia. }
      rewrite visibleArrows_eq, Qltb_Qnat by lia.
      destruct (Nat.ltb_spec0 5 (Z.to_nat (Z.max 1 (Qfloor (c / 2))))) as [H|H]; [lia|].
      cbn [am_visible set_am_visible]. rewrite set_am_visible_same by exact Hv. reflexivity.
Qed.

Lemma sixth_arrow_frames sin :
  forall fs st a, Forall below12 fs -> nth_error (snd st) 5 = Some a -> am_visible a = false ->
  nth_error (snd (runArrowFrames sin fs st)) 5 = Some a.
Proof.
  induction fs as [|f fs IH]; intros st a Hfs Ha Hv; [exact Ha|].
  inversion Hfs as [|f' fs' Hf Hfs']; subst. cbn [runArrowFrames].
  apply IH; [exact Hfs' | | exact Hv]. apply sixth_arrow_step; assumption.
Qed.

(** ** Properties of the current arrows *)

(** X9: after [updateCurrentArrows] the main arrow is visible exactly when
    [current > 0.01] (so not for NaN), and of the [n] small arrows the first
    [min(n, max(1, floor(current / 2)))] are visible and the others hidden
    when [current > 0.01]; for any other current (NaN included) all small
    arrows are hidden. *)
Theorem updateCurrentArrows_visible sin now main sa cur dt :
  ah_visible (fst (updateCurrentArrows sin now main sa cur dt)) = js_gt cur 0.01 /\
  map am_visible (snd (updateCurrentArrows sin now main sa cur dt)) =
    match cur with
    | JNum c =>
        if Qltb 0.01 c then
          repeat true (Nat.min (length sa) (Z.to_nat (Z.max 1 (Qfloor (c / 2)))))
          ++ repeat false (length sa - Z.to_nat (Z.max 1 (Qfloor (c / 2))))
        else repeat false (length sa)
    | JNaN => repeat false (length sa)
    end.
Proof.
  split.
  - unfold updateCurrentArrows.
    destruct cur as [|c]; [|destruct (Qltb 0.01 c) eqn:E];
      destruct sa as [|a sa']; cbn [js_gt js_le fst set_ah_visible ah_visible];
      try destruct (Qle_bool c 0.01); cbn [fst ah_visible]; rewrite ?E; reflexivity.
  - destruct sa as [|a sa'].
    { destruct cur as [|c]; [|destruct (Qltb 0.01 c)]; reflexivity. }
    unfold updateCurrentArrows. destruct cur as [|c]; cbn [js_le snd].
    + apply map_set_invisible.
    + destruct (Qle_bool c 0.01) eqn:E1; cbn [snd].
      * unfold Qltb. rewrite E1. apply map_set_invisible.
      * assert (Hc : Qltb 0.01 c = true) by (unfold Qltb; rewrite E1; reflexivity).
        rewrite Hc.
        rewrite forEach_arrows_visible, visibleArrows_eq.
        set (K := Z.max 1 (Qfloor (c / 2))).
        assert (HK : (0 <= K)%Z) by (unfold K; lia).
        rewrite (map_ext _ (fun j => Nat.ltb j (Z.to_nat K)) (fun j => Qltb_Qnat j K HK)).
        rewrite seq_ltb_prefix, Nat.sub_0_r. reflexivity.
Qed.

(** X10: [updateCurrentArrows] moves small arrows only along x and only
    the visible ones, and never leaves a visible arrow beyond x = 2.5 (one
    that passes it restarts at [-2.5 + (index mod 3) * 0.2]); a hidden
    arrow keeps its position, scale and emissiveIntensity. *)
Theorem updateCurrentArrows_positions sin now main sa cur dt :
  Forall2 (fun a a' =>
      if am_visible a' then
        x (am_position a') <= 2.5 /\ y (am_position a') = y (am_position a) /\
        z (am_position a') = z (am_position a)
      else
        am_position a' = am_position a /\ am_scale a' = am_scale a /\
        am_emissiveIntensity a' = am_emissiveIntensity a)
    sa (snd (updateCurrentArrows sin now main sa cur dt)).
Proof.
  change (Forall2 arrow_moved sa (snd (updateCurrentArrows sin now main sa cur dt))).
  destruct sa as [|a sa']; [destruct cur as [|c]; constructor|].
  unfold updateCurrentArrows. destruct cur as [|c]; cbn [js_le snd].
  - apply map_invisible_moved.
  - destruct (Qle_bool c 0.01); cbn [snd];
      [apply map_invisible_moved | apply forEach_arrows_moved].
Qed.

(** X11: starting from [createCurrentArrows], over any sequence of
    [updateCurrentArrows] calls whose current is below 12 or NaN (the UI
    slider stops at 10), the sixth small arrow (index 5, created at
    x = 3) is never shown and is never changed: it stays as created. *)
Theorem createCurrentArrows_sixth_hidden sin fs :
  Forall below12 fs ->
  nth_error (snd (runArrowFrames sin fs createCurrentArrows)) 5
  = nth_error (snd createCurrentArrows) 5.
Proof.
  intro Hfs. apply sixth_arrow_frames; [exact Hfs | reflexivity | reflexivity].
Qed.

(** Four calls: current 10, NaN, 0 and 11.9. *)
Definition demo_arrow_frames : list ArrowFrame :=
  [mkArrowFrame (JNum 10) 0.016 (fun _ => 0); mkArrowFrame JNaN 0.016 (fun _ => 16);
   mkArrowFrame (JNum 0) 0.016 (fun _ => 32); mkArrowFrame (JNum (119 # 10)) 0.016 (fun _ => 48)].

Lemma createCurrentArrows_sixth_hidden_witness :
  Forall below12 demo_arrow_frames /\
  nth_error (snd (runArrowFrames sin_zero demo_arrow_frames createCurrentArrows)) 5
  = nth_error (snd createCurrentArrows) 5.
Proof.
  assert (H : Forall below12 demo_arrow_frames).
  { unfold demo_arrow_frames.
    repeat constructor; unfold below12; cbn [af_current]; lra. }
  split; [exact H|].
  exact (createCurrentArrows_sixth_hidden sin_zero demo_arrow_frames H).
Defined.
